(** * Pseudo potential families (aiida_pseudo.groups.family.pseudo)

    A shallow embedding of [PseudoPotentialFamily] and of the part of the
    AiiDA object store it talks to, followed by the properties of the
    family's directory parser, constructor, membership manager and lookup.

    Python exceptions are values of [exn]; a call that can raise returns a
    [result].  Methods that change the database or the family instance are
    state transformers returning the final state next to the result, so
    that everything written before an exception is raised stays visible,
    as it does in Python. *)

From stdpp Require Import gmap strings list.
From Stdlib Require Import Strings.Ascii Strings.Byte.

Open Scope string_scope.

(** ** Exceptions and results *)

(** The exception classes the module raises or catches, each with the
    message it was built with. *)
Inductive exn :=
| ValueError (msg : string)
| TypeError (msg : string)
| RuntimeError (msg : string)
| ParsingError (msg : string)
| ModificationNotAllowed (msg : string)
| NotExistent (msg : string)
| MultipleObjectsError (msg : string).

(** [str(exception)] *)
Definition str_exn (e : exn) : string :=
  match e with
  | ValueError m | TypeError m | RuntimeError m | ParsingError m
  | ModificationNotAllowed m | NotExistent m | MultipleObjectsError m => m
  end.

Inductive result (A : Type) :=
| Ok (a : A)
| Raise (e : exn).
Arguments Ok {A} a.
Arguments Raise {A} e.

Definition is_ok {A} (r : result A) : bool :=
  match r with Ok _ => true | Raise _ => false end.

(** ** Data nodes *)

(** Modelled from the spec: the record types.  [PseudoPotentialData] and
    its subclasses [UpfData] and [PsmlData] are declared in
    [aiida_pseudo.data.pseudo], which is not among the sources at hand;
    the family needs of them that a class is, or is not, the accepted one,
    and which classes are subclasses of [PseudoPotentialData]. *)
Inductive pseudo_class := PseudoPotentialData | UpfData | PsmlData.

Global Instance pseudo_class_eq_dec : EqDecision pseudo_class.
Proof. solve_decision. Defined.

(** [issubclass(c, base)] *)
Definition issubclass (c base : pseudo_class) : bool :=
  match base with
  | PseudoPotentialData => true
  | _ => bool_decide (c = base)
  end.

(** Modelled from the spec: a record, with the attributes the family
    reads, the optional [element], the checksum [md5] and whether it is
    stored: [pk] is [None] until the node is stored.  [ptype] is
    [type(node)]. *)
Record pseudo := mkPseudo {
  pk : option nat;
  ptype : pseudo_class;
  element : option string;
  md5 : string
}.

Global Instance pseudo_eq_dec : EqDecision pseudo.
Proof. solve_decision. Defined.

(** ** The file system, as [os.path] and [os.listdir] show it *)

#[warnings="-register-all"]
Inductive fsobj :=
| FsFile (content : list byte)
| FsDir (entries : list (string * fsobj))
| FsOther.

(** [os.path.isdir] and [os.path.isfile] of an entry. *)
Definition isdir (o : fsobj) : bool :=
  match o with FsDir _ => true | _ => false end.
Definition isfile (o : fsobj) : bool :=
  match o with FsFile _ => true | _ => false end.

Fixpoint ends_with_slash (s : string) : bool :=
  match s with
  | EmptyString => false
  | String c EmptyString => bool_decide (c = "/"%char)
  | String _ s' => ends_with_slash s'
  end.

(** [os.path.join(a, b)] on POSIX. *)
Definition path_join (a b : string) : string :=
  if String.prefix "/" b then b
  else if bool_decide (a = "") || ends_with_slash a then a ++ b
  else a ++ "/" ++ b.

(** ** The regular expression [^([A-Za-z]{1,2})\.\w+] *)

Section Regex.

(** [str.isalnum] on the code points above ASCII; below, the table is
    written out in [is_word]. *)
Variable unicode_alnum : ascii -> bool.

Definition is_letter (c : ascii) : bool :=
  let n := nat_of_ascii c in
  ((65 <=? n) && (n <=? 90) || (97 <=? n) && (n <=? 122))%nat.

Definition is_digit (c : ascii) : bool :=
  let n := nat_of_ascii c in ((48 <=? n) && (n <=? 57))%nat.

(** [\w].  A character of the model is a byte, so above ASCII the class
    is decided byte by byte, not code point by code point. *)
Definition is_word (c : ascii) : bool :=
  is_letter c || is_digit c || bool_decide (c = "_"%char)
  || ((128 <=? nat_of_ascii c)%nat && unicode_alnum c).

(** [\.\w+] matched at the start of [s]: a dot and one word character
    are enough, the rest of [\w+] never fails. *)
Definition match_dot_word (s : string) : bool :=
  match s with
  | String "."%char (String c _) => is_word c
  | _ => false
  end.

(** [re.search(r'^([A-Za-z]{1,2})\.\w+', filename)], giving [group(1)].
    The anchor leaves position 0 only; the greedy [{1,2}] takes two
    letters first and falls back to one. *)
Definition re_search_element (filename : string) : option string :=
  match filename with
  | String c1 rest1 =>
      if is_letter c1 then
        match rest1 with
        | String c2 rest2 =>
            if is_letter c2 && match_dot_word rest2
            then Some (String c1 (String c2 EmptyString))
            else if match_dot_word rest1
                 then Some (String c1 EmptyString)
                 else None
        | EmptyString => None
        end
      else None
  | EmptyString => None
  end.

End Regex.

(** ** The object store

    Modelled from the spec: the backing store, of which the family uses
    the lookup of a group by its label, the queries by class, checksum,
    element and group, the storing of nodes and groups, and the listing
    and extension of a group's nodes.  The model has the table of stored
    pseudo potential nodes and the table of groups of the family class.
    A primary key is the row's position in its table, so storing appends
    a row. *)

Record node_row := mkRow {
  r_type : pseudo_class;
  r_element : option string;
  r_md5 : string
}.

Record group_row := mkGroup {
  g_label : string;
  g_description : option string;
  g_nodes : list nat
}.

Record store := mkStore {
  db_nodes : list node_row;
  db_groups : list group_row
}.

Definition node_of_row (i : nat) (row : node_row) : pseudo :=
  mkPseudo (Some i) (r_type row) (r_element row) (r_md5 row).

Definition row_of_node (p : pseudo) : node_row :=
  mkRow (ptype p) (element p) (md5 p).

(** Every stored node, loaded, in table order. *)
Definition all_nodes (st : store) : list pseudo :=
  imap node_of_row (db_nodes st).

Definition load_node (st : store) (i : nat) : option pseudo :=
  node_of_row i <$> db_nodes st !! i.

(** [QueryBuilder.first()] and [QueryBuilder.one()] on a list of matches. *)
Definition builder_first {A} (matches : list A) : option A := head matches.

Definition builder_one {A} (matches : list A) : result A :=
  match matches with
  | [] => Raise (NotExistent "No result was found")
  | [x] => Ok x
  | _ => Raise (MultipleObjectsError "Multiple results were found")
  end.

(** [cls.objects.get(label=label)]: the primary key of the group. *)
Definition objects_get (st : store) (label : string) : result nat :=
  builder_one
    (fst <$> filter (λ ig, g_label ig.2 = label) (imap pair (db_groups st))).

(** [Group.nodes] of the group with primary key [g]; an unstored group
    ([None]) has none. *)
Definition group_nodes (st : store) (g : option nat) : list pseudo :=
  match g ≫= (λ i, db_groups st !! i) with
  | Some row => omap (load_node st) (g_nodes row)
  | None => []
  end.

(** Modelled from the spec: [store()] of a record.  An unstored node gets
    the next primary key and a row; a stored node is returned as it is. *)
Definition node_store (p : pseudo) (st : store) : pseudo * store :=
  match pk p with
  | Some _ => (p, st)
  | None =>
      (mkPseudo (Some (length (db_nodes st))) (ptype p) (element p) (md5 p),
       mkStore (db_nodes st ++ [row_of_node p]) (db_groups st))
  end.

(** [[pseudo.store() for pseudo in pseudos]] *)
Fixpoint store_all (ps : list pseudo) (st : store) : list pseudo * store :=
  match ps with
  | [] => ([], st)
  | p :: rest =>
      let '(p', st1) := node_store p st in
      let '(rest', st2) := store_all rest st1 in
      (p' :: rest', st2)
  end.

(** Adding node keys to a group's membership, which is a set: keys that
    are already there are not added again. *)
Fixpoint add_members (members new : list nat) : list nat :=
  match new with
  | [] => members
  | i :: rest =>
      add_members (if bool_decide (i ∈ members) then members
                   else members ++ [i]) rest
  end.

(** [Group.add_nodes(nodes)] of the base class, on the stored group [g]:
    it refuses unstored nodes.  The model writes nothing then; a backend
    that adds the nodes one by one has by then added the stored nodes
    listed before the first unstored one, so what the group holds after
    this failure is not to be read off the model. *)
Definition group_add_nodes (g : nat) (nodes : list pseudo) (st : store)
  : result unit * store :=
  match mapM pk nodes with
  | None =>
      (Raise (ValueError
         "At least one of the provided nodes is unstored, stopping..."), st)
  | Some keys =>
      (Ok tt,
       mkStore (db_nodes st)
         (alter (λ row, mkGroup (g_label row) (g_description row)
                          (add_members (g_nodes row) keys)) g (db_groups st)))
  end.

(** ** Arguments of [get_pseudos] *)

Record Kind := mkKind { symbol : string }.
Record StructureData := mkStructure { kinds : list Kind }.

(** The values a caller can pass for [elements] and [structure]. *)
Inductive pyarg :=
| PyNone
| PyList (items : list string)
| PyTuple (items : list string)
| PyStructure (s : StructureData)
| PyStr (s : string).

Definition is_none (a : pyarg) : bool :=
  match a with PyNone => true | _ => false end.

(** [isinstance(a, (list, tuple))] and [isinstance(a, StructureData)] *)
Definition is_list_or_tuple (a : pyarg) : bool :=
  match a with PyList _ | PyTuple _ => true | _ => false end.
Definition is_structure (a : pyarg) : bool :=
  match a with PyStructure _ => true | _ => false end.

(** What [for element in a] runs over. *)
Definition py_iter (a : pyarg) : result (list string) :=
  match a with
  | PyList items | PyTuple items => Ok items
  | PyStr s => Ok ((λ c, String c EmptyString) <$> String.list_ascii_of_string s)
  | PyStructure _ => Raise (TypeError "'StructureData' object is not iterable")
  | PyNone => Raise (TypeError "'NoneType' object is not iterable")
  end.

(** ** State transformers *)

Definition M (S A : Type) : Type := S → result A * S.

Definition ret {S A} (a : A) : M S A := λ s, (Ok a, s).
Definition raise {S A} (e : exn) : M S A := λ s, (Raise e, s).
Definition bind {S A B} (c : M S A) (k : A → M S B) : M S B :=
  λ s, match c s with
       | (Ok a, s') => k a s'
       | (Raise e, s') => (Raise e, s')
       end.
Definition get_state {S} : M S S := λ s, (Ok s, s).
Definition put_state {S} (s : S) : M S unit := λ _, (Ok tt, s).

Notation "'do' x <- c ; k" := (bind c (λ x, k))
  (at level 10, x name, c at level 100, k at level 200).
Notation "'do' ' pat <- c ; k" := (bind c (λ x, match x with pat => k end))
  (at level 10, pat pattern, c at level 100, k at level 200).

(** ** The family *)

(** A family instance: [f_pk] is [None] until the group is stored
    ([is_stored]); [_pseudos] is the instance's cache, [None] until its
    first use. *)
Record family := mkFamily {
  f_pk : option nat;
  label : string;
  description : option string;
  _pseudos : option (gmap (option string) pseudo)
}.

Definition is_stored (self : family) : bool := bool_decide (is_Some (f_pk self)).

Definition set_cache (self : family) (d : gmap (option string) pseudo)
  : family :=
  mkFamily (f_pk self) (label self) (description self) (Some d).

(** [{pseudo.element: pseudo for pseudo in nodes}]: a later node replaces
    an earlier one with the same element. *)
Definition dict_by_element (nodes : list pseudo)
  : gmap (option string) pseudo :=
  foldl (λ d p, <[element p := p]> d) ∅ nodes.

(** The [nodes] argument of [add_nodes]: one node or a list of them. *)
Inductive nodes_arg :=
| OneNode (node : pseudo)
| NodeList (nodes : list pseudo).

(** The family class [cls] and what Python does for it: the name of the
    class, the data class [_pseudo_type] it accepts, the constructor of
    that class, which reads a file and gives the element it found, if any,
    and the checksum, how the class and a list of nodes are printed, and
    [str.isalnum] above ASCII. *)
Record family_class := mkClass {
  cls_name : string;
  _pseudo_type : pseudo_class;
  construct : list byte → string → result (option string * string);
  repr_pseudo_type : string;
  repr_nodes : list pseudo → string;
  unicode_alnum : ascii → bool
}.

Section Family.

Variable cls : family_class.

(** *** parse_pseudos_from_directory *)

Definition msg_no_element : string :=
  "`" ++ repr_pseudo_type cls
  ++ "` constructor did not define the element and could not parse a valid "
  ++ "element symbol from the filename `{filename}` either. It should have the format "
  ++ "`ELEMENT.EXTENSION`".

(** The body of the loop for one regular file.  The assignment
    [pseudo.element = match.group(1)] is taken as a plain assignment: a
    data class whose setter checks the symbol can raise there, which the
    model does not show. *)
Definition parse_file (dirpath filename : string) (content : list byte)
  : result pseudo :=
  let filepath := path_join dirpath filename in
  match construct cls content filename with
  | Raise (ParsingError m) =>
      Raise (ParsingError ("failed to parse `" ++ filepath ++ "`: " ++ m))
  | Raise e => Raise e
  | Ok (Some el, sum) => Ok (mkPseudo None (_pseudo_type cls) (Some el) sum)
  | Ok (None, sum) =>
      match re_search_element (unicode_alnum cls) filename with
      | None => Raise (ParsingError msg_no_element)
      | Some el => Ok (mkPseudo None (_pseudo_type cls) (Some el) sum)
      end
  end.

(** The loop over [os.listdir(dirpath)], [pseudos] being the list built
    so far. *)
Fixpoint parse_entries (dirpath : string) (entries : list (string * fsobj))
    (pseudos : list pseudo) : result (list pseudo) :=
  match entries with
  | [] => Ok pseudos
  | (filename, FsFile content) :: rest =>
      match parse_file dirpath filename content with
      | Ok pseudo => parse_entries dirpath rest (pseudos ++ [pseudo])
      | Raise e => Raise e
      end
  | _ :: _ =>
      Raise (ValueError ("dirpath `" ++ dirpath
               ++ "` contains at least one entry that is not a file"))
  end.

(** The directory the loop runs over: the only entry of [dirpath] when
    that is a directory, [dirpath] itself otherwise. *)
Definition resolve_level (dirpath : string) (contents : list (string * fsobj))
  : string * list (string * fsobj) :=
  match contents with
  | [(name, FsDir inner)] => (path_join dirpath name, inner)
  | _ => (dirpath, contents)
  end.

(** The checks after the loop. *)
Definition check_parsed (dirpath : string) (pseudos : list pseudo)
  : result (list pseudo) :=
  if bool_decide (pseudos = []) then
    Raise (ValueError ("no pseudo potentials were parsed from `"
             ++ dirpath ++ "`"))
  else
    let elements : gset (option string) := list_to_set (element <$> pseudos) in
    if bool_decide (length pseudos ≠ size elements) then
      Raise (ValueError ("directory `" ++ dirpath
               ++ "` contains pseudo potentials with duplicate elements"))
    else Ok pseudos.

(** [fs] gives what a path names. *)
Definition parse_pseudos_from_directory (fs : gmap string fsobj)
    (dirpath : string) : result (list pseudo) :=
  match fs !! dirpath with
  | Some (FsDir contents) =>
      let '(dirpath, contents) := resolve_level dirpath contents in
      match parse_entries dirpath contents [] with
      | Raise e => Raise e
      | Ok pseudos => check_parsed dirpath pseudos
      end
  | _ => Raise (ValueError ("`" ++ dirpath ++ "` is not a directory"))
  end.

(** *** The cache: the [pseudos] and [elements] properties *)

Definition pseudos : M (family * store) (gmap (option string) pseudo) :=
  λ '(self, st),
    match _pseudos self with
    | Some d => (Ok d, (self, st))
    | None =>
        let d := dict_by_element (group_nodes st (f_pk self)) in
        (Ok d, (set_cache self d, st))
    end.

Definition elements : M (family * store) (list (option string)) :=
  do d <- pseudos; ret (map_to_list d).*1.

(** *** add_nodes *)

(** [str(pseudo.element)] inside an f-string. *)
Definition str_element (e : option string) : string :=
  match e with Some s => s | None => "None" end.

(** The loop that checks for duplicates, [found] being the local
    dictionary [pseudos] built so far. *)
Fixpoint check_duplicates (nodes : list pseudo)
    (found : gmap (option string) pseudo)
  : M (family * store) (gmap (option string) pseudo) :=
  match nodes with
  | [] => ret found
  | pseudo :: rest =>
      do present <- elements;
      if bool_decide (element pseudo ∈ present) then
        raise (ValueError ("element `" ++ str_element (element pseudo)
                 ++ "` already present in this family"))
      else check_duplicates rest (<[element pseudo := pseudo]> found)
  end.

(** [super().add_nodes(nodes)] *)
Definition super_add_nodes (nodes : list pseudo) : M (family * store) unit :=
  λ '(self, st),
    match f_pk self with
    | None =>
        (Raise (ModificationNotAllowed
                  "cannot add nodes to an unstored group"), (self, st))
    | Some g =>
        let '(r, st') := group_add_nodes g nodes st in (r, (self, st'))
    end.

Definition as_list (nodes : nodes_arg) : list pseudo :=
  match nodes with OneNode node => [node] | NodeList l => l end.

Definition add_nodes (nodes : nodes_arg) : M (family * store) unit :=
  do '(self, _) <- get_state;
  if negb (is_stored self) then
    raise (ModificationNotAllowed "cannot add nodes to an unstored group")
  else
    let nodes := as_list nodes in
    if existsb (λ node, bool_decide (ptype node ≠ _pseudo_type cls)) nodes then
      raise (TypeError ("only nodes of type `" ++ repr_pseudo_type cls
               ++ "` can be added: " ++ repr_nodes cls nodes))
    else
      do found <- check_duplicates nodes ∅;
      do d <- pseudos;
      do '(self, st) <- get_state;
      do _ <- put_state (set_cache self (found ∪ d), st);
      super_add_nodes nodes.

(** *** get_pseudo *)

(** The query of [get_pseudo]: the nodes of the group [g] whose class is
    [_pseudo_type] or a subclass and whose element is [el]. *)
Definition query_element (st : store) (g : option nat) (el : string)
  : list pseudo :=
  filter (λ p, issubclass (ptype p) (_pseudo_type cls) = true
               ∧ element p = Some el)
    (group_nodes st g).

Definition get_pseudo (el : string) : M (family * store) pseudo :=
  do d <- pseudos;
  match d !! Some el with
  | Some pseudo => ret pseudo
  | None =>
      do '(self, st) <- get_state;
      match builder_one (query_element st (f_pk self) el) with
      | Raise (MultipleObjectsError _) =>
          raise (RuntimeError ("family `" ++ label self
                   ++ "` contains multiple pseudos for `" ++ el ++ "`"))
      | Raise (NotExistent _) =>
          raise (ValueError ("family `" ++ label self
                   ++ "` does not contain pseudo for element `" ++ el ++ "`"))
      | Raise e => raise e
      | Ok pseudo =>
          do d <- pseudos;
          do '(self, st) <- get_state;
          do _ <- put_state (set_cache self (<[Some el := pseudo]> d), st);
          ret pseudo
      end
  end.

(** *** get_pseudos *)

(** The checks on the keyword arguments, giving the value the final
    comprehension iterates over. *)
Definition requested_elements (elements structure : pyarg) : result pyarg :=
  if negb (is_none elements) && negb (is_none structure) then
    Raise (ValueError
      "cannot specify both keyword arguments `elements` and `structure`.")
  else if is_none elements && is_none structure then
    Raise (ValueError
      "have to specify one of the keyword arguments `elements` and `structure`.")
  else if negb (is_none elements) && negb (is_list_or_tuple elements)
          && negb (is_structure elements) then
    Raise (ValueError "elements should be a list or tuple of symbols.")
  else if negb (is_none structure) && negb (is_structure structure) then
    Raise (ValueError "structure should be a `StructureData` instance.")
  else
    match structure with
    | PyStructure s => Ok (PyList (symbol <$> kinds s))
    | _ => Ok elements
    end.

(** [{element: self.get_pseudo(element) for element in items}], [acc]
    being the dictionary built so far. *)
Fixpoint get_each (items : list string) (acc : gmap string pseudo)
  : M (family * store) (gmap string pseudo) :=
  match items with
  | [] => ret acc
  | el :: rest =>
      do pseudo <- get_pseudo el; get_each rest (<[el := pseudo]> acc)
  end.

Definition get_pseudos (elements structure : pyarg)
  : M (family * store) (gmap string pseudo) :=
  match requested_elements elements structure with
  | Raise e => raise e
  | Ok iterable =>
      match py_iter iterable with
      | Raise e => raise e
      | Ok items => get_each items ∅
      end
  end.

(** *** create_from_folder *)

(** [family.store()]: the group gets the next primary key and a row.
    The description is stored as it was given; what the base class makes
    of [None] is not modelled. *)
Definition family_store (self : family) (st : store) : family * store :=
  match f_pk self with
  | Some _ => (self, st)
  | None =>
      (mkFamily (Some (length (db_groups st))) (label self)
         (description self) (_pseudos self),
       mkStore (db_nodes st)
         (db_groups st ++ [mkGroup (label self) (description self) []]))
  end.

(** The query of the deduplication: the stored nodes of class
    [_pseudo_type] itself ([subclassing=False]) with the checksum. *)
Definition query_md5 (st : store) (sum : string) : list pseudo :=
  filter (λ p, ptype p = _pseudo_type cls ∧ md5 p = sum) (all_nodes st).

(** The body of the loop over the parsed pseudos. *)
Definition family_pseudo (deduplicate : bool) (st : store) (parsed : pseudo)
  : pseudo :=
  if deduplicate then
    match builder_first (query_md5 st (md5 parsed)) with
    | Some existing => existing
    | None => parsed
    end
  else parsed.

(** [description] is a string or [None], which is what the leading
    [type_check] asks for; [issubclass(_pseudo_type, PseudoPotentialData)]
    holds for every class of [pseudo_class], so the constructor of the
    family does not raise. *)
Definition create_from_folder (fs : gmap string fsobj) (dirpath : string)
    (label : string) (description : option string) (deduplicate : bool)
  : M store family :=
  λ st,
    match objects_get st label with
    | Raise (NotExistent _) =>
        let family := mkFamily None label description None in
        match parse_pseudos_from_directory fs dirpath with
        | Raise e => (Raise e, st)
        | Ok parsed_pseudos =>
            let family_pseudos :=
              family_pseudo deduplicate st <$> parsed_pseudos in
            let '(family, st1) := family_store family st in
            let '(stored, st2) := store_all family_pseudos st1 in
            match add_nodes (NodeList stored) (family, st2) with
            | (Ok _, (family, st3)) => (Ok family, st3)
            | (Raise e, (_, st3)) => (Raise e, st3)
            end
        end
    | Raise e => (Raise e, st)
    | Ok _ =>
        (Raise (ValueError ("the " ++ cls_name cls ++ " `" ++ label
                  ++ "` already exists")), st)
    end.

End Family.

(** ** The cache, as a function of the state *)

(** The dictionary the [pseudos] property returns: the cache when there is
    one, the listing of the group otherwise. *)
Definition cached (st : store) (self : family) : gmap (option string) pseudo :=
  match _pseudos self with
  | Some d => d
  | None => dict_by_element (group_nodes st (f_pk self))
  end.

(** The instance after its cache has been looked at. *)
Definition populated (st : store) (self : family) : family :=
  set_cache self (cached st self).

(** ** Invariants *)

(** A stored node object shows what its row holds. *)
Definition node_of_store (st : store) (n : pseudo) : Prop :=
  ∀ k, pk n = Some k → load_node st k = Some n.

(** Every member of the family, node of its group or value of its cache,
    is of the accepted class itself. *)
Definition members_of_accepted_type (cls : family_class) (self : family)
    (st : store) : Prop :=
  Forall (λ n, ptype n = _pseudo_type cls) (group_nodes st (f_pk self))
  ∧ ∀ d k n, _pseudos self = Some d → d !! k = Some n →
             ptype n = _pseudo_type cls.

(** A record just parsed from a file: not stored, of the accepted class,
    with an element. *)
Definition freshly_parsed (cls : family_class) (n : pseudo) : Prop :=
  pk n = None ∧ ptype n = _pseudo_type cls ∧ is_Some (element n).

(** What [store()] makes of the node [p], in the database [st']: a stored
    node is itself, an unstored node has a new key, at or above [base],
    and its own row under it. *)
Definition stored_as (base : nat) (st' : store) (p q : pseudo) : Prop :=
  match pk p with
  | Some _ => q = p
  | None =>
      ∃ k, q = mkPseudo (Some k) (ptype p) (element p) (md5 p)
           ∧ (base ≤ k)%nat
           ∧ db_nodes st' !! k = Some (row_of_node p)
  end.

(** ** The result of a lookup, as a function of the cache *)

(** What [get_pseudo] returns or raises for the element [el], given the
    dictionary [d] the [pseudos] property returns. *)
Definition get_pseudo_result (cls : family_class)
    (d : gmap (option string) pseudo) (self : family) (st : store)
    (el : string) : result pseudo :=
  match d !! Some el with
  | Some r => Ok r
  | None =>
      match builder_one (query_element cls st (f_pk self) el) with
      | Raise (MultipleObjectsError _) =>
          Raise (RuntimeError ("family `" ++ label self
                   ++ "` contains multiple pseudos for `" ++ el ++ "`"))
      | Raise (NotExistent _) =>
          Raise (ValueError ("family `" ++ label self
                   ++ "` does not contain pseudo for element `" ++ el ++ "`"))
      | Raise e => Raise e
      | Ok r => Ok r
      end
  end.

(** [{element: lookup(element) for element in items}] for a lookup that
    can raise: the first exception, in the order of [items], is the
    result; [acc] is the dictionary built so far. *)
Fixpoint mapping_of (lookup : string → result pseudo) (items : list string)
    (acc : gmap string pseudo) : result (gmap string pseudo) :=
  match items with
  | [] => Ok acc
  | el :: rest =>
      match lookup el with
      | Ok r => mapping_of lookup rest (<[el := r]> acc)
      | Raise e => Raise e
      end
  end.

(** ** Relations between the input and the output of the methods *)

(** The directory entry [entry] is a regular file from which the loop of
    the parser, run in [dirpath], makes the record [p]. *)
Definition file_parses (cls : family_class) (dirpath : string)
    (entry : string * fsobj) (p : pseudo) : Prop :=
  ∃ content, entry.2 = FsFile content
             ∧ parse_file cls dirpath entry.1 content = Ok p.

(** The cache and the group agree: every node of the cache is a node of
    the group, filed under its own element, and the element of every node
    of the group is a key of the cache.  A cache that was never filled
    agrees with any group. *)
Definition cache_consistent (self : family) (st : store) : Prop :=
  ∀ d, _pseudos self = Some d →
    (∀ k n, d !! k = Some n →
            n ∈ group_nodes st (f_pk self) ∧ element n = k)
    ∧ (∀ n, n ∈ group_nodes st (f_pk self) → is_Some (d !! element n)).

(** The group of a stored family has its row in the database. *)
Definition family_of_store (self : family) (st : store) : Prop :=
  ∀ g, f_pk self = Some g → is_Some (db_groups st !! g).

(** ** Classes, directories and stores to run the model on *)

(** A stand-in for the checksum of a file: its content, read as text. *)
Definition content_checksum (content : list byte) : string :=
  String.string_of_list_byte content.

Definition class_name (c : pseudo_class) : string :=
  match c with
  | PseudoPotentialData => "PseudoPotentialData"
  | UpfData => "UpfData"
  | PsmlData => "PsmlData"
  end.

(** A stand-in for [repr] of a list of nodes. *)
Definition repr_node_list (nodes : list pseudo) : string :=
  "[" ++ String.concat ", "
           ((λ p, "<" ++ class_name (ptype p) ++ ">") <$> nodes) ++ "]".

Definition ascii_only (c : ascii) : bool := false.

(** The base family: its data class leaves the element to the file
    name. *)
Definition PseudoPotentialFamily : family_class :=
  mkClass "PseudoPotentialFamily" PseudoPotentialData
    (λ content _, Ok (None, content_checksum content))
    "<class 'aiida_pseudo.data.pseudo.pseudo.PseudoPotentialData'>"
    repr_node_list ascii_only.

(** A family whose data class cannot parse an empty file, and says so
    with the [ParsingError] the parser is prepared for. *)
Definition StrictFamily : family_class :=
  mkClass "StrictFamily" UpfData
    (λ content _,
       match content with
       | [] => Raise (ParsingError "could not parse the element")
       | _ => Ok (None, content_checksum content)
       end)
    "<class 'aiida_pseudo.data.pseudo.upf.UpfData'>"
    repr_node_list ascii_only.

(** [needle in hay] on strings. *)
Fixpoint contains (needle hay : string) : bool :=
  String.prefix needle hay
  || match hay with
     | EmptyString => false
     | String _ hay' => contains needle hay'
     end.

Definition empty_store : store := mkStore [] [].

(** A directory with one file per element. *)
Definition dir_H_He : gmap string fsobj :=
  {[ "/pseudos" :=
       FsDir [("H.upf", FsFile [x61%byte]); ("He.upf", FsFile [x62%byte])] ]}.

(** Two files that both resolve to hydrogen. *)
Definition dir_two_H : gmap string fsobj :=
  {[ "/pseudos" :=
       FsDir [("H.upf", FsFile [x61%byte]); ("H.pbe", FsFile [x62%byte])] ]}.

(** Two files that both resolve to hydrogen, and a third whose name does
    not start with an element symbol and a dot. *)
Definition dir_two_H_then_no_symbol : gmap string fsobj :=
  {[ "/pseudos" :=
       FsDir [("H.upf", FsFile [x61%byte]); ("H.pbe", FsFile [x62%byte]);
              ("Hex.upf", FsFile [x63%byte])] ]}.

(** A file for lithium and a file named for helium that has the content
    of the stored hydrogen node of [store_one_H]. *)
Definition dir_Li_He : gmap string fsobj :=
  {[ "/pseudos" :=
       FsDir [("Li.upf", FsFile [x63%byte]); ("He.upf", FsFile [x61%byte])] ]}.

(** A wrapper directory that holds a file and one more directory. *)
Definition dir_nested_twice : gmap string fsobj :=
  {[ "/pseudos" :=
       FsDir [("wrapper",
               FsDir [("H.upf", FsFile [x61%byte]); ("deeper", FsDir [])])] ]}.

(** An empty file, which the data class of [StrictFamily] cannot parse,
    listed before a subdirectory. *)
Definition dir_empty_file_then_subdirectory : gmap string fsobj :=
  {[ "/pseudos" := FsDir [("H.upf", FsFile []); ("nested", FsDir [])] ]}.

(** A file whose name does not start with an element symbol and a dot. *)
Definition dir_no_symbol : gmap string fsobj :=
  {[ "/pseudos" := FsDir [("Hex.upf", FsFile [x61%byte])] ]}.

(** A stored, empty family and two stored pseudo potentials for hydrogen,
    from two different files. *)
Definition store_two_H : store :=
  mkStore [mkRow PseudoPotentialData (Some "H") "a";
           mkRow PseudoPotentialData (Some "H") "b"]
          [mkGroup "SSSP" (Some "") []].

Definition family_SSSP : family := mkFamily (Some 0) "SSSP" (Some "") None.

Definition hydrogen_a : pseudo :=
  mkPseudo (Some 0) PseudoPotentialData (Some "H") "a".
Definition hydrogen_b : pseudo :=
  mkPseudo (Some 1) PseudoPotentialData (Some "H") "b".

(** A family that is not stored and a stored UPF node. *)
Definition family_unstored : family := mkFamily None "new" (Some "") None.

Definition store_one_upf : store :=
  mkStore [mkRow UpfData (Some "H") "a"] [mkGroup "SSSP" (Some "") []].

Definition hydrogen_upf : pseudo := mkPseudo (Some 0) UpfData (Some "H") "a".

(** One stored pseudo potential for hydrogen and no family yet. *)
Definition store_one_H : store :=
  mkStore [mkRow PseudoPotentialData (Some "H") "a"] [].

(** Two directories whose single files have the same content under two
    names. *)
Definition two_dirs : gmap string fsobj :=
  {[ "/first" := FsDir [("H.upf", FsFile [x61%byte])];
     "/second" := FsDir [("He.upf", FsFile [x61%byte])] ]}.

(** The database after the family [A] was created from [/first], and
    after the family [B] was then created from [/second], with [B] as
    [create_from_folder] returns it. *)
Definition store_with_A : store :=
  mkStore [mkRow PseudoPotentialData (Some "H") "a"]
          [mkGroup "A" (Some "") [0]].

Definition store_with_A_B : store :=
  mkStore [mkRow PseudoPotentialData (Some "H") "a"]
          [mkGroup "A" (Some "") [0]; mkGroup "B" (Some "") [0]].

Definition family_B : family :=
  mkFamily (Some 1) "B" (Some "")
    (Some {[ Some "H" := mkPseudo (Some 0) PseudoPotentialData (Some "H") "a" ]}).

(** A family whose cache was filled while its group was empty, and the
    database after two hydrogen nodes were put in the group behind its
    back. *)
Definition family_stale : family := mkFamily (Some 0) "SSSP" (Some "") (Some ∅).

Definition store_two_H_members : store :=
  mkStore [mkRow PseudoPotentialData (Some "H") "a";
           mkRow PseudoPotentialData (Some "H") "b"]
          [mkGroup "SSSP" (Some "") [0; 1]].

(** * Properties *)

(** ** Lists, sets and dictionaries *)

Lemma size_list_to_set_le {A} `{!EqDecision A, !Countable A} (l : list A) :
  (size (list_to_set l : gset A) ≤ length l)%nat.
Proof.
  induction l as [|x l IH].
  - rewrite list_to_set_nil, size_empty. done.
  - rewrite list_to_set_cons, size_union_alt, size_singleton.
    assert (Hsub : (list_to_set l ∖ {[x]} : gset A) ⊆ list_to_set l)
      by (by apply subseteq_difference_l).
    apply subseteq_size in Hsub. simpl. lia.
Qed.

(** [len(l) == len(set(l))] says that [l] has no duplicates. *)
Lemma size_list_to_set_NoDup {A} `{!EqDecision A, !Countable A} (l : list A) :
  size (list_to_set l : gset A) = length l ↔ NoDup l.
Proof.
  split; [|apply size_list_to_set].
  induction l as [|x l IH]; [constructor|].
  rewrite list_to_set_cons. simpl. intros Hsz.
  destruct (decide (x ∈ l)) as [Hin|Hnin].
  - exfalso.
    assert ({[x]} ∪ list_to_set l = (list_to_set l : gset A)) as Heq
      by (by apply subseteq_union_1_L, singleton_subseteq_l,
            elem_of_list_to_set).
    rewrite Heq in Hsz. pose proof (size_list_to_set_le l). lia.
  - constructor; [done|]. apply IH.
    rewrite size_union in Hsz
      by (by apply disjoint_singleton_l; rewrite elem_of_list_to_set).
    rewrite size_singleton in Hsz. lia.
Qed.

(** ** The element in a file name *)

Lemma is_letter_dot : is_letter "."%char = false.
Proof. reflexivity. Qed.



(** ** The directory parser *)

Section Parser.

Variable cls : family_class.

Lemma parse_entries_app dirpath l1 l2 acc :
  parse_entries cls dirpath (l1 ++ l2) acc =
    match parse_entries cls dirpath l1 acc with
    | Ok ps => parse_entries cls dirpath l2 ps
    | Raise e => Raise e
    end.
Proof.
  revert acc. induction l1 as [|[name o] l1 IH]; intros acc; simpl; [done|].
  destruct o; try done.
  destruct (parse_file cls dirpath name content); [apply IH|done].
Qed.

(** The loop fails at the first entry that is not a regular file when
    everything listed before it was parsed. *)
Lemma parse_entries_not_a_file dirpath before name o after acc ps :
  isfile o = false →
  parse_entries cls dirpath before acc = Ok ps →
  parse_entries cls dirpath (before ++ (name, o) :: after) acc =
    Raise (ValueError ("dirpath `" ++ dirpath
             ++ "` contains at least one entry that is not a file")).
Proof.
  intros Ho Hb. rewrite parse_entries_app, Hb. by destruct o.
Qed.

(** The loop never gets past an entry that is not a regular file. *)
Lemma parse_entries_not_a_file_fails dirpath before name o after acc :
  isfile o = false →
  ∃ e, parse_entries cls dirpath (before ++ (name, o) :: after) acc = Raise e.
Proof.
  intros Ho. rewrite parse_entries_app.
  destruct (parse_entries cls dirpath before acc); [|by eauto].
  destruct o; try done; simpl; eauto.
Qed.

(** A file for which the constructor found no element gets the element
    the regular expression reads from its name. *)
Lemma parse_file_element_from_filename dirpath filename content sum el :
  construct cls content filename = Ok (None, sum) →
  re_search_element (unicode_alnum cls) filename = Some el →
  parse_file cls dirpath filename content =
    Ok (mkPseudo None (_pseudo_type cls) (Some el) sum).
Proof. intros Hc Hr. unfold parse_file. by rewrite Hc, Hr. Qed.

(** When the name does not match either, the message raised is the same
    for every file. *)
Lemma parse_file_no_element dirpath filename content sum :
  construct cls content filename = Ok (None, sum) →
  re_search_element (unicode_alnum cls) filename = None →
  parse_file cls dirpath filename content =
    Raise (ParsingError (msg_no_element cls)).
Proof. intros Hc Hr. unfold parse_file. by rewrite Hc, Hr. Qed.

Lemma check_parsed_empty dirpath :
  check_parsed dirpath [] =
    Raise (ValueError ("no pseudo potentials were parsed from `"
             ++ dirpath ++ "`")).
Proof. done. Qed.

Lemma check_parsed_duplicates dirpath ps :
  ¬ NoDup (element <$> ps) →
  check_parsed dirpath ps =
    Raise (ValueError ("directory `" ++ dirpath
             ++ "` contains pseudo potentials with duplicate elements")).
Proof.
  intros Hdup. unfold check_parsed.
  rewrite bool_decide_eq_false_2
    by (intros ->; apply Hdup; constructor).
  rewrite bool_decide_eq_true_2; [done|].
  intros Hlen. apply Hdup, size_list_to_set_NoDup.
  by rewrite length_fmap.
Qed.

Lemma check_parsed_ok dirpath ps :
  ps ≠ [] → NoDup (element <$> ps) → check_parsed dirpath ps = Ok ps.
Proof.
  intros Hne Hnd. unfold check_parsed.
  rewrite bool_decide_eq_false_2 by done.
  rewrite bool_decide_eq_false_2; [done|].
  intros Hlen. apply Hlen.
  by rewrite size_list_to_set, length_fmap.
Qed.

End Parser.

(** C5, as the code has it.  The duplicates and the empty list are
    looked for after the loop over the directory.  When the loop has made
    a record of every entry, the parser raises [ValueError] (the
    specification's InvalidInputError) if two of the records have the
    same element, and also if there is no record at all.  When the loop
    raises, for an entry that is not a file or for a file of which no
    record can be made, that exception comes out, whatever the elements
    of the other files are. *)
Theorem parse_rejects_duplicate_elements_and_empty
    (cls : family_class) (fs : gmap string fsobj)
    (dirpath : string) (contents : list (string * fsobj)) :
  fs !! dirpath = Some (FsDir contents) →
  (∀ parsed,
     parse_entries cls (resolve_level dirpath contents).1
       (resolve_level dirpath contents).2 [] = Ok parsed →
     ((∃ i j p q, i ≠ j ∧ parsed !! i = Some p ∧ parsed !! j = Some q
                  ∧ element p = element q) →
      parse_pseudos_from_directory cls fs dirpath =
        Raise (ValueError ("directory `" ++ (resolve_level dirpath contents).1
                 ++ "` contains pseudo potentials with duplicate elements")))
     ∧ (parsed = [] →
        parse_pseudos_from_directory cls fs dirpath =
          Raise (ValueError ("no pseudo potentials were parsed from `"
                   ++ (resolve_level dirpath contents).1 ++ "`"))))
  ∧ (∀ e,
       parse_entries cls (resolve_level dirpath contents).1
         (resolve_level dirpath contents).2 [] = Raise e →
       parse_pseudos_from_directory cls fs dirpath = Raise e).
Proof.
  intros Hfs. unfold parse_pseudos_from_directory. rewrite Hfs.
  destruct (resolve_level dirpath contents) as [level entries] eqn:Hlevel.
  simpl in *. split.
  - intros parsed Hloop. rewrite Hloop. split.
    + intros (i & j & p & q & Hij & Hi & Hj & Hel).
      apply check_parsed_duplicates. intros Hnd. apply Hij.
      eapply NoDup_lookup; [exact Hnd| |].
      * rewrite list_lookup_fmap, Hi. done.
      * rewrite list_lookup_fmap, Hj. simpl. by rewrite Hel.
    + intros ->. apply check_parsed_empty.
  - intros e Hloop. by rewrite Hloop.
Qed.

(** C6, as the code has it.  A directory whose only entry is a directory
    is parsed as that entry, joined to the path, and no deeper; at the
    level the loop runs over, a subdirectory always makes the call fail:
    with [ValueError] (InvalidInputError) when every entry listed before
    it was parsed, and with the exception raised for an earlier entry
    otherwise. *)
Theorem parse_descends_once_and_rejects_subdirectories
    (cls : family_class) (fs : gmap string fsobj) (dirpath : string) :
  (∀ name inner,
     fs !! dirpath = Some (FsDir [(name, FsDir inner)]) →
     parse_pseudos_from_directory cls fs dirpath =
       match parse_entries cls (path_join dirpath name) inner [] with
       | Ok parsed => check_parsed (path_join dirpath name) parsed
       | Raise e => Raise e
       end)
  ∧ (∀ contents before name sub after,
       fs !! dirpath = Some (FsDir contents) →
       (resolve_level dirpath contents).2
         = (before ++ (name, FsDir sub) :: after)%list →
       parse_pseudos_from_directory cls fs dirpath =
         match parse_entries cls (resolve_level dirpath contents).1 before []
         with
         | Ok _ =>
             Raise (ValueError
               ("dirpath `" ++ (resolve_level dirpath contents).1
                ++ "` contains at least one entry that is not a file"))
         | Raise e => Raise e
         end).
Proof.
  split.
  - intros name inner Hfs. unfold parse_pseudos_from_directory.
    rewrite Hfs. done.
  - intros contents before name sub after Hfs Hentries.
    unfold parse_pseudos_from_directory. rewrite Hfs.
    destruct (resolve_level dirpath contents) as [level entries].
    simpl in *. subst entries. rewrite parse_entries_app.
    by destruct (parse_entries cls level before []).
Qed.

Lemma parse_rejects_duplicate_elements_and_empty_witness :
  parse_pseudos_from_directory PseudoPotentialFamily dir_two_H "/pseudos" =
    Raise (ValueError
      "directory `/pseudos` contains pseudo potentials with duplicate elements").
Proof.
  refine (proj1 (proj1 (parse_rejects_duplicate_elements_and_empty
                          PseudoPotentialFamily dir_two_H "/pseudos"
                          [("H.upf", FsFile [x61%byte]);
                           ("H.pbe", FsFile [x62%byte])] _)
                   [mkPseudo None PseudoPotentialData (Some "H") "a";
                    mkPseudo None PseudoPotentialData (Some "H") "b"] _) _).
  - vm_compute. reflexivity.
  - vm_compute. reflexivity.
  - exists 0, 1, (mkPseudo None PseudoPotentialData (Some "H") "a"),
      (mkPseudo None PseudoPotentialData (Some "H") "b").
    repeat split. lia.
Defined.

Lemma parse_descends_once_and_rejects_subdirectories_witness :
  parse_pseudos_from_directory PseudoPotentialFamily dir_nested_twice "/pseudos"
    = Raise (ValueError
        "dirpath `/pseudos/wrapper` contains at least one entry that is not a file").
Proof.
  etrans.
  - apply (proj2 (parse_descends_once_and_rejects_subdirectories
                    PseudoPotentialFamily dir_nested_twice "/pseudos")
             [("wrapper",
               FsDir [("H.upf", FsFile [x61%byte]); ("deeper", FsDir [])])]
             [("H.upf", FsFile [x61%byte])] "deeper" [] []).
    + vm_compute. reflexivity.
    + vm_compute. reflexivity.
  - vm_compute. reflexivity.
Defined.

(** C5, as stated, fails: two files of the directory resolve to
    hydrogen, and the call raises the [ParsingError] of the third file,
    whose name gives no element, not [ValueError]. *)
Lemma parse_duplicate_elements_and_unparsable_file :
  dir_two_H_then_no_symbol !! "/pseudos"
    = Some (FsDir [("H.upf", FsFile [x61%byte]); ("H.pbe", FsFile [x62%byte]);
                   ("Hex.upf", FsFile [x63%byte])])
  ∧ parse_file PseudoPotentialFamily "/pseudos" "H.upf" [x61%byte]
    = Ok (mkPseudo None PseudoPotentialData (Some "H") "a")
  ∧ parse_file PseudoPotentialFamily "/pseudos" "H.pbe" [x62%byte]
    = Ok (mkPseudo None PseudoPotentialData (Some "H") "b")
  ∧ parse_pseudos_from_directory PseudoPotentialFamily
      dir_two_H_then_no_symbol "/pseudos"
    = Raise (ParsingError (msg_no_element PseudoPotentialFamily)).
Proof. repeat split; vm_compute; reflexivity. Qed.

(** C6, as stated, fails: the directory has a subdirectory at the level
    the loop runs over, and the call raises the [ParsingError] of the file
    listed before it. *)
Lemma parse_subdirectory_after_unparsable_file :
  dir_empty_file_then_subdirectory !! "/pseudos"
    = Some (FsDir [("H.upf", FsFile []); ("nested", FsDir [])])
  ∧ parse_pseudos_from_directory StrictFamily dir_empty_file_then_subdirectory
      "/pseudos"
    = Raise (ParsingError
        "failed to parse `/pseudos/H.upf`: could not parse the element").
Proof. split; vm_compute; reflexivity. Qed.

(** C7.  For a file whose constructor leaves the element open and whose
    name does not match the pattern, the parser raises [ParsingError], but
    the message does not name the file: the part of the message that holds
    [{filename}] is not an f-string, so the braces stay as they are. *)
Theorem parse_error_does_not_name_the_file :
  parse_pseudos_from_directory PseudoPotentialFamily dir_no_symbol "/pseudos"
    = Raise (ParsingError (msg_no_element PseudoPotentialFamily))
  ∧ msg_no_element PseudoPotentialFamily
    = "`<class 'aiida_pseudo.data.pseudo.pseudo.PseudoPotentialData'>` constructor did not define the element and could not parse a valid element symbol from the filename `{filename}` either. It should have the format `ELEMENT.EXTENSION`"
  ∧ contains "Hex.upf" (msg_no_element PseudoPotentialFamily) = false.
Proof. repeat split; vm_compute; reflexivity. Qed.

(** ** The cache *)

Lemma pseudos_spec self st :
  pseudos (self, st) = (Ok (cached st self), (populated st self, st)).
Proof.
  unfold pseudos, populated, cached, set_cache.
  destruct self as [g l d [c|]]; done.
Qed.

Lemma cached_populated st self : cached st (populated st self) = cached st self.
Proof. done. Qed.

Lemma populated_populated st self :
  populated st (populated st self) = populated st self.
Proof. done. Qed.

Lemma f_pk_populated st self : f_pk (populated st self) = f_pk self.
Proof. done. Qed.

Lemma elem_of_keys {A} (d : gmap (option string) A) (k : option string) :
  k ∈ (map_to_list d).*1 ↔ is_Some (d !! k).
Proof.
  rewrite list_elem_of_fmap. split.
  - intros [[k' x] [-> Hin]]. apply elem_of_map_to_list in Hin. eauto.
  - intros [x Hx]. exists (k, x). split; [done|].
    by apply elem_of_map_to_list.
Qed.

Lemma elements_spec self st :
  elements (self, st) =
    (Ok (map_to_list (cached st self)).*1, (populated st self, st)).
Proof. unfold elements, bind. by rewrite pseudos_spec. Qed.

(** What the dictionary built from a list of nodes holds. *)
Lemma foldl_insert_lookup (nodes : list pseudo)
    (found : gmap (option string) pseudo) k p :
  foldl (λ d n, <[element n := n]> d) found nodes !! k = Some p →
  (p ∈ nodes ∧ element p = k) ∨ found !! k = Some p.
Proof.
  revert found. induction nodes as [|n nodes IH]; intros found; simpl.
  - auto.
  - intros H. apply IH in H as [[Hin Hel]|H].
    + left. split; [by apply elem_of_cons; right|done].
    + destruct (decide (element n = k)) as [<-|Hne].
      * rewrite lookup_insert_eq in H. injection H as <-.
        left. split; [apply elem_of_cons; by left|done].
      * rewrite lookup_insert_ne in H by done. by right.
Qed.

Lemma foldl_insert_is_Some (nodes : list pseudo)
    (found : gmap (option string) pseudo) k :
  is_Some (foldl (λ d n, <[element n := n]> d) found nodes !! k) ↔
  k ∈ element <$> nodes ∨ is_Some (found !! k).
Proof.
  revert found. induction nodes as [|n nodes IH]; intros found; simpl.
  - rewrite elem_of_nil. tauto.
  - rewrite IH, elem_of_cons. destruct (decide (element n = k)) as [<-|Hne].
    + rewrite lookup_insert_eq. split; [|intros _; right; eauto]. tauto.
    + rewrite lookup_insert_ne by done. split.
      * intros [?|?]; auto.
      * intros [[?|?]|?]; auto. congruence.
Qed.

Lemma dict_by_element_lookup nodes k p :
  dict_by_element nodes !! k = Some p → p ∈ nodes ∧ element p = k.
Proof.
  intros H. apply foldl_insert_lookup in H as [?|H]; [done|].
  by rewrite lookup_empty in H.
Qed.

Lemma dict_by_element_is_Some nodes k :
  is_Some (dict_by_element nodes !! k) ↔ k ∈ element <$> nodes.
Proof.
  unfold dict_by_element. rewrite foldl_insert_is_Some, lookup_empty.
  split; [intros [?|[? ?]]; done|auto].
Qed.

(** ** add_nodes *)

Section AddNodes.

Variable cls : family_class.

(** The loop goes through when no node of the batch has an element that
    is a key of the cache: elements shared inside the batch are not
    looked for. *)
Lemma check_duplicates_ok nodes found self st :
  Forall (λ n, cached st self !! element n = None) nodes →
  check_duplicates nodes found (self, st) =
    (Ok (foldl (λ d n, <[element n := n]> d) found nodes),
     (match nodes with [] => self | _ => populated st self end, st)).
Proof.
  revert found self. induction nodes as [|n nodes IH];
    intros found self Hall; [done|].
  apply Forall_cons in Hall as [Hn Hall].
  simpl. unfold bind at 1. rewrite elements_spec.
  rewrite bool_decide_eq_false_2.
  2:{ rewrite elem_of_keys, Hn. by intros [? ?]. }
  rewrite IH by done. by destruct nodes.
Qed.

(** The loop stops at the first node whose element is a key of the
    cache, and has written nothing but the cache's first listing. *)
Lemma check_duplicates_present before n after found self st :
  Forall (λ n, cached st self !! element n = None) before →
  is_Some (cached st self !! element n) →
  check_duplicates (before ++ n :: after) found (self, st) =
    (Raise (ValueError ("element `" ++ str_element (element n)
              ++ "` already present in this family")),
     (populated st self, st)).
Proof.
  revert found self. induction before as [|m before IH];
    intros found self Hall Hn; simpl; unfold bind at 1;
    rewrite elements_spec.
  - rewrite bool_decide_eq_true_2 by (by apply elem_of_keys). done.
  - apply Forall_cons in Hall as [Hm Hall].
    rewrite bool_decide_eq_false_2.
    2:{ rewrite elem_of_keys, Hm. by intros [? ?]. }
    rewrite IH by done. done.
Qed.

Lemma existsb_wrong_type nodes :
  existsb (λ node, bool_decide (ptype node ≠ _pseudo_type cls)) nodes = false
  ↔ Forall (λ n, ptype n = _pseudo_type cls) nodes.
Proof.
  induction nodes as [|n nodes IH]; simpl.
  - split; [constructor|done].
  - rewrite orb_false_iff, IH, Forall_cons, bool_decide_eq_false.
    split; intros [H ?]; split; try done.
    + by destruct (decide (ptype n = _pseudo_type cls)).
    + auto.
Qed.

(** An unstored family refuses every batch and stays as it is. *)
Lemma add_nodes_unstored nodes self st :
  f_pk self = None →
  add_nodes cls nodes (self, st) =
    (Raise (ModificationNotAllowed "cannot add nodes to an unstored group"),
     (self, st)).
Proof.
  intros Hpk. unfold add_nodes, bind, get_state, is_stored. rewrite Hpk.
  rewrite bool_decide_eq_false_2 by (by intros [? ?]). done.
Qed.

(** A stored family refuses a batch with a node of another class and
    stays as it is. *)
Lemma add_nodes_wrong_type nodes self st g n :
  f_pk self = Some g →
  n ∈ as_list nodes → ptype n ≠ _pseudo_type cls →
  add_nodes cls nodes (self, st) =
    (Raise (TypeError ("only nodes of type `" ++ repr_pseudo_type cls
              ++ "` can be added: " ++ repr_nodes cls (as_list nodes))),
     (self, st)).
Proof.
  intros Hpk Hin Hty. unfold add_nodes, bind, get_state, is_stored.
  rewrite Hpk, bool_decide_eq_true_2 by eauto. simpl.
  destruct (existsb _ (as_list nodes)) eqn:Hex; [done|].
  apply existsb_wrong_type in Hex.
  rewrite Forall_forall in Hex. by apply Hex in Hin.
Qed.

(** A stored family refuses a batch of the accepted class when the
    element of one of its nodes is a key of the cache; the database is
    not written and the cache holds what it held. *)
Lemma add_nodes_element_present nodes self st g before n after :
  f_pk self = Some g →
  Forall (λ n, ptype n = _pseudo_type cls) (as_list nodes) →
  as_list nodes = (before ++ n :: after)%list →
  Forall (λ n, cached st self !! element n = None) before →
  is_Some (cached st self !! element n) →
  add_nodes cls nodes (self, st) =
    (Raise (ValueError ("element `" ++ str_element (element n)
              ++ "` already present in this family")),
     (populated st self, st)).
Proof.
  intros Hpk Hty Hsplit Hbefore Hn.
  unfold add_nodes, bind at 1, get_state, is_stored.
  rewrite Hpk, bool_decide_eq_true_2 by eauto. simpl.
  apply existsb_wrong_type in Hty. rewrite Hty.
  unfold bind at 1. rewrite Hsplit.
  by rewrite check_duplicates_present.
Qed.

(** A batch that passes the checks: the cache takes the batch's
    dictionary, then the base class adds the nodes to the group. *)
Lemma add_nodes_accepted nodes self st g :
  f_pk self = Some g →
  Forall (λ n, ptype n = _pseudo_type cls) (as_list nodes) →
  Forall (λ n, cached st self !! element n = None) (as_list nodes) →
  add_nodes cls nodes (self, st) =
    let self' :=
      set_cache self (dict_by_element (as_list nodes) ∪ cached st self) in
    let '(r, st') := group_add_nodes g (as_list nodes) st in
    (r, (self', st')).
Proof.
  intros Hpk Hty Hfresh.
  unfold add_nodes, bind at 1, get_state, is_stored.
  rewrite Hpk, bool_decide_eq_true_2 by eauto. simpl.
  apply existsb_wrong_type in Hty. rewrite Hty.
  unfold bind at 1. rewrite check_duplicates_ok by done.
  unfold bind at 1. rewrite pseudos_spec.
  unfold bind, get_state, put_state, super_add_nodes.
  set (self1 := match as_list nodes with [] => self | _ => _ end).
  assert (populated st self1 = populated st self) as ->
    by (subst self1; by destruct (as_list nodes)).
  assert (cached st self1 = cached st self) as ->
    by (subst self1; by destruct (as_list nodes)).
  unfold populated, set_cache. cbn [f_pk label description].
  rewrite Hpk. done.
Qed.

End AddNodes.

(** C1.  A stored, empty family is given two stored nodes of the accepted
    class that are both for hydrogen: no exception is raised, both nodes
    become members of the group, and the cache keeps the second. *)
Theorem add_nodes_accepts_shared_element_in_batch :
  add_nodes PseudoPotentialFamily (NodeList [hydrogen_a; hydrogen_b])
    (family_SSSP, store_two_H)
  = (Ok tt,
     (set_cache family_SSSP {[ Some "H" := hydrogen_b ]},
      mkStore (db_nodes store_two_H) [mkGroup "SSSP" (Some "") [0; 1]]))
  ∧ group_nodes
      (mkStore (db_nodes store_two_H) [mkGroup "SSSP" (Some "") [0; 1]])
      (Some 0)
    = [hydrogen_a; hydrogen_b]
  ∧ element hydrogen_a = element hydrogen_b.
Proof. repeat split; vm_compute; reflexivity. Qed.

(** ** The class of the members *)

Lemma first_present (d : gmap (option string) pseudo) (l : list pseudo) :
  Forall (λ n, d !! element n = None) l
  ∨ ∃ before n after,
      l = (before ++ n :: after)%list
      ∧ Forall (λ n, d !! element n = None) before
      ∧ is_Some (d !! element n).
Proof.
  induction l as [|m l IH]; [left; constructor|].
  destruct (d !! element m) as [x|] eqn:Hm.
  - right. exists [], m, l. repeat split; [constructor|]. rewrite Hm. eauto.
  - destruct IH as [IH|(before & n & after & -> & Hb & Hn)].
    + left. by constructor.
    + right. exists (m :: before), n, after. repeat split; [|done].
      by constructor.
Qed.

Lemma elem_of_add_members members new k :
  k ∈ add_members members new → k ∈ members ∨ k ∈ new.
Proof.
  revert members. induction new as [|i new IH]; intros members; simpl.
  - auto.
  - intros H. apply IH in H as [H|H]; [|right; by apply elem_of_cons; right].
    case_bool_decide; [by left|].
    apply elem_of_app in H as [H|H]; [by left|].
    apply list_elem_of_singleton in H as ->. right. apply elem_of_cons. by left.
Qed.

Lemma populated_members_of_accepted_type cls self st :
  members_of_accepted_type cls self st →
  members_of_accepted_type cls (populated st self) st.
Proof.
  intros [Hgroup Hcache]. split; [done|].
  intros d k n [= <-] Hk. unfold cached in Hk.
  destruct (_pseudos self) as [c|] eqn:Hc; [by eapply Hcache|].
  apply dict_by_element_lookup in Hk as [Hin _].
  rewrite Forall_forall in Hgroup. by apply Hgroup.
Qed.

(** Adding a batch of the accepted class to the group keeps the group of
    the accepted class. *)
Lemma group_add_nodes_accepted_type cls g nodes st r st' self :
  f_pk self = Some g →
  Forall (node_of_store st) nodes →
  Forall (λ n, ptype n = _pseudo_type cls) nodes →
  Forall (λ n, ptype n = _pseudo_type cls) (group_nodes st (f_pk self)) →
  group_add_nodes g nodes st = (r, st') →
  Forall (λ n, ptype n = _pseudo_type cls) (group_nodes st' (f_pk self)).
Proof.
  intros Hpk Hcoh Hty Hgroup Hadd. unfold group_add_nodes in Hadd.
  destruct (mapM pk nodes) as [keys|] eqn:Hkeys; [|by injection Hadd as _ <-].
  injection Hadd as _ <-. rewrite Hpk in *. unfold group_nodes in *.
  simpl in *. rewrite list_lookup_alter, decide_True by done.
  destruct (db_groups st !! g) as [row|] eqn:Hrow; simpl; [|constructor].
  rewrite Forall_forall in *. intros n Hn.
  apply list_elem_of_omap in Hn as (k & Hk & Hload).
  apply elem_of_add_members in Hk as [Hk|Hk].
  - apply Hgroup. apply list_elem_of_omap. by exists k.
  - apply mapM_Some in Hkeys.
    apply list_elem_of_lookup in Hk as [i Hi].
    destruct (Forall2_lookup_r _ _ _ _ _ Hkeys Hi) as (m & Hm & Hpkm).
    assert (m ∈ nodes) as Hin by (apply list_elem_of_lookup; eauto).
    apply Hcoh in Hpkm; [|done].
    unfold load_node in *. simpl in Hload.
    rewrite Hpkm in Hload. injection Hload as <-. by apply Hty.
Qed.

(** C8, as the code has it.  On a stored family [add_nodes] raises
    [TypeError] as soon as one node of the batch is of a class other than
    the accepted one, a strict subclass included, and changes nothing; an
    unstored family is refused before that, with
    [ModificationNotAllowed]; and whatever [add_nodes] returns, if every
    member was of the accepted class before, every member is after. *)
Theorem add_nodes_keeps_members_of_accepted_type
    (cls : family_class) (nodes : nodes_arg) (self : family) (st : store) :
  (∀ n, is_Some (f_pk self) → n ∈ as_list nodes →
        ptype n ≠ _pseudo_type cls →
        add_nodes cls nodes (self, st) =
          (Raise (TypeError ("only nodes of type `" ++ repr_pseudo_type cls
                    ++ "` can be added: " ++ repr_nodes cls (as_list nodes))),
           (self, st)))
  ∧ (f_pk self = None →
     add_nodes cls nodes (self, st) =
       (Raise (ModificationNotAllowed "cannot add nodes to an unstored group"),
        (self, st)))
  ∧ (Forall (node_of_store st) (as_list nodes) →
     members_of_accepted_type cls self st →
     members_of_accepted_type cls (add_nodes cls nodes (self, st)).2.1
       (add_nodes cls nodes (self, st)).2.2).
Proof.
  split; [|split].
  - intros n [g Hg] Hin Hty. by eapply add_nodes_wrong_type.
  - apply add_nodes_unstored.
  - intros Hcoh Hinv.
    destruct (f_pk self) as [g|] eqn:Hpk; [|by rewrite add_nodes_unstored].
    destruct (decide (Forall (λ n, ptype n = _pseudo_type cls) (as_list nodes)))
      as [Hty|Hty].
    2:{ apply not_Forall_Exists in Hty; [|apply _].
        apply Exists_exists in Hty as (n & Hin & Hn).
        by rewrite (add_nodes_wrong_type cls nodes self st g n). }
    destruct (first_present (cached st self) (as_list nodes))
      as [Hfresh|(before & n & after & Hsplit & Hbefore & Hn)].
    2:{ rewrite (add_nodes_element_present cls nodes self st g before n after)
          by done.
        by apply populated_members_of_accepted_type. }
    rewrite (add_nodes_accepted cls nodes self st g) by done.
    destruct (group_add_nodes g (as_list nodes) st) as [r st'] eqn:Hadd.
    simpl. split.
    + destruct Hinv as [Hgroup _]. simpl.
      by eapply (group_add_nodes_accepted_type cls g (as_list nodes) st r st'
                   self).
    + intros d k m [= <-] Hk. simpl in Hk.
      apply lookup_union_Some_raw in Hk as [Hk|[_ Hk]].
      * apply dict_by_element_lookup in Hk as [Hin _].
        rewrite Forall_forall in Hty. by apply Hty.
      * destruct (populated_members_of_accepted_type cls self st Hinv)
          as [_ Hc].
        by eapply (Hc _ k m eq_refl).
Qed.

Lemma add_nodes_keeps_members_of_accepted_type_witness :
  add_nodes PseudoPotentialFamily (OneNode hydrogen_upf)
    (family_SSSP, store_one_upf)
  = (Raise (TypeError
       "only nodes of type `<class 'aiida_pseudo.data.pseudo.pseudo.PseudoPotentialData'>` can be added: [<UpfData>]"),
     (family_SSSP, store_one_upf)).
Proof.
  refine (proj1 (add_nodes_keeps_members_of_accepted_type
                   PseudoPotentialFamily (OneNode hydrogen_upf)
                   family_SSSP store_one_upf) hydrogen_upf _ _ _).
  - vm_compute. eauto.
  - vm_compute. apply list_elem_of_here.
  - vm_compute. discriminate.
Defined.

(** C8, as stated, fails: the family is not stored, the node is of a
    strict subclass of the accepted class, and the exception is
    [ModificationNotAllowed], not [TypeError]. *)
Lemma add_nodes_unstored_family_other_class :
  issubclass (ptype hydrogen_upf) (_pseudo_type PseudoPotentialFamily) = true
  ∧ bool_decide (ptype hydrogen_upf = _pseudo_type PseudoPotentialFamily)
    = false
  ∧ add_nodes PseudoPotentialFamily (OneNode hydrogen_upf)
      (family_unstored, store_one_upf)
    = (Raise (ModificationNotAllowed "cannot add nodes to an unstored group"),
       (family_unstored, store_one_upf)).
Proof. repeat split; vm_compute; reflexivity. Qed.

(** ** The lookup by label *)

Lemma filter_label_fresh (h : nat → nat) (rows : list group_row) label :
  label ∉ g_label <$> rows →
  filter (λ ig : nat * group_row, g_label ig.2 = label)
    (imap (λ i row, (h i, row)) rows) = [].
Proof.
  revert h. induction rows as [|row rows IH]; intros h Hnot; [done|].
  rewrite fmap_cons, not_elem_of_cons in Hnot. destruct Hnot as [Hne Hnot].
  rewrite imap_cons, filter_cons. simpl.
  rewrite decide_False by done. apply (IH (h ∘ S)), Hnot.
Qed.

Lemma filter_label_unique (h : nat → nat) (rows : list group_row) label :
  NoDup (g_label <$> rows) → label ∈ g_label <$> rows →
  ∃ ig, filter (λ ig : nat * group_row, g_label ig.2 = label)
          (imap (λ i row, (h i, row)) rows) = [ig].
Proof.
  revert h. induction rows as [|row rows IH]; intros h Hnd Hin.
  - by apply elem_of_nil in Hin.
  - rewrite fmap_cons in *. apply NoDup_cons in Hnd as [Hnotin Hnd].
    rewrite imap_cons, filter_cons. simpl.
    destruct (decide (g_label row = label)) as [Heq|Hne].
    + exists (h 0, row). f_equal. apply (filter_label_fresh (h ∘ S)).
      by rewrite <- Heq.
    + apply elem_of_cons in Hin as [Hin|Hin]; [done|].
      apply (IH (h ∘ S)); done.
Qed.

Lemma objects_get_fresh st label :
  label ∉ g_label <$> db_groups st →
  objects_get st label = Raise (NotExistent "No result was found").
Proof.
  intros H. unfold objects_get.
  change (imap pair (db_groups st))
    with (imap (λ i row, (id i, row)) (db_groups st)).
  by rewrite (filter_label_fresh id (db_groups st) label H).
Qed.

Lemma objects_get_present st label :
  NoDup (g_label <$> db_groups st) → label ∈ g_label <$> db_groups st →
  ∃ g, objects_get st label = Ok g.
Proof.
  intros Hnd Hin. unfold objects_get.
  destruct (filter_label_unique id (db_groups st) label Hnd Hin) as [ig Hig].
  change (imap pair (db_groups st))
    with (imap (λ i row, (id i, row)) (db_groups st)).
  rewrite Hig. simpl. eauto.
Qed.

(** ** create_from_folder *)

(** C3.  When the label is already that of a group in the database,
    where labels are unique, [create_from_folder] raises [ValueError]
    (the specification's AlreadyExistsError) whatever the directory holds,
    and the database is left as it was. *)
Theorem create_from_folder_existing_label
    (cls : family_class) (fs : gmap string fsobj) (dirpath label : string)
    (description : option string) (deduplicate : bool) (st : store) :
  NoDup (g_label <$> db_groups st) →
  label ∈ g_label <$> db_groups st →
  create_from_folder cls fs dirpath label description deduplicate st =
    (Raise (ValueError ("the " ++ cls_name cls ++ " `" ++ label
              ++ "` already exists")), st).
Proof.
  intros Hnd Hin. unfold create_from_folder.
  destruct (objects_get_present st label Hnd Hin) as [g ->]. done.
Qed.

Lemma create_from_folder_existing_label_witness :
  create_from_folder PseudoPotentialFamily dir_H_He "/pseudos" "SSSP"
    (Some "another") true store_two_H
  = (Raise (ValueError "the PseudoPotentialFamily `SSSP` already exists"),
     store_two_H).
Proof.
  apply (create_from_folder_existing_label PseudoPotentialFamily dir_H_He
           "/pseudos" "SSSP" (Some "another") true store_two_H).
  - vm_compute. apply NoDup_singleton.
  - vm_compute. apply list_elem_of_here.
Defined.

Section Create.

Variable cls : family_class.

Lemma parse_file_freshly_parsed dirpath filename content p :
  parse_file cls dirpath filename content = Ok p → freshly_parsed cls p.
Proof.
  unfold parse_file, freshly_parsed.
  destruct (construct cls content filename) as [[[el|] sum]|[]]; try done.
  - intros [= <-]. simpl. eauto.
  - destruct (re_search_element _ filename); [|done].
    intros [= <-]. simpl. eauto.
Qed.

Lemma parse_entries_freshly_parsed dirpath entries acc parsed :
  parse_entries cls dirpath entries acc = Ok parsed →
  Forall (freshly_parsed cls) acc → Forall (freshly_parsed cls) parsed.
Proof.
  revert acc. induction entries as [|[name o] entries IH]; intros acc; simpl.
  - by intros [= <-].
  - destruct o; try done.
    destruct (parse_file cls dirpath name content) as [p|] eqn:Hp; [|done].
    intros Hrest Hacc. apply (IH _ Hrest).
    apply Forall_app. split; [done|].
    apply Forall_singleton. by eapply parse_file_freshly_parsed.
Qed.

Lemma check_parsed_Ok dirpath ps parsed :
  check_parsed dirpath ps = Ok parsed →
  parsed = ps ∧ ps ≠ [] ∧ NoDup (element <$> ps).
Proof.
  unfold check_parsed. case_bool_decide as Hne; [done|].
  case_bool_decide as Hlen; [done|]. intros [= <-]. repeat split; [done|].
  apply size_list_to_set_NoDup. by rewrite length_fmap.
Qed.

(** What the parser returns: records that are not stored, of the accepted
    class, each with an element, and no two with the same. *)
Lemma parse_pseudos_from_directory_Ok fs dirpath parsed :
  parse_pseudos_from_directory cls fs dirpath = Ok parsed →
  Forall (freshly_parsed cls) parsed
  ∧ parsed ≠ [] ∧ NoDup (element <$> parsed).
Proof.
  unfold parse_pseudos_from_directory.
  destruct (fs !! dirpath) as [[| contents |]|]; try done.
  destruct (resolve_level dirpath contents) as [level entries].
  destruct (parse_entries cls level entries []) as [ps|] eqn:Hloop; [|done].
  intros Hcheck. apply check_parsed_Ok in Hcheck as (-> & Hne & Hnd).
  repeat split; try done.
  eapply parse_entries_freshly_parsed; [done|constructor].
Qed.

Lemma store_all_spec ps st :
  db_groups (store_all ps st).2 = db_groups st
  ∧ db_nodes (store_all ps st).2 =
      (db_nodes st ++ (row_of_node <$> filter (λ p, pk p = None) ps))%list
  ∧ Forall2 (stored_as (length (db_nodes st)) (store_all ps st).2)
      ps (store_all ps st).1.
Proof.
  revert st. induction ps as [|p ps IH]; intros st; simpl.
  - rewrite app_nil_r. repeat split. constructor.
  - unfold node_store. rewrite filter_cons.
    destruct (pk p) as [k|] eqn:Hpk.
    + rewrite decide_False by done.
      destruct (IH st) as (Hg & Hn & Hall).
      destruct (store_all ps st) as [rest st2]. simpl in *.
      repeat split; try done. constructor; [|done].
      unfold stored_as. by rewrite Hpk.
    + rewrite decide_True by done.
      set (st1 := mkStore (db_nodes st ++ [row_of_node p]) (db_groups st)).
      destruct (IH st1) as (Hg & Hn & Hall).
      destruct (store_all ps st1) as [rest st2]. simpl in *.
      repeat split; [done| |].
      * rewrite Hn, <- app_assoc. done.
      * constructor.
        -- unfold stored_as. rewrite Hpk. exists (length (db_nodes st)).
           repeat split; [done|].
           rewrite Hn, <- app_assoc. simpl.
           by rewrite list_lookup_middle.
        -- eapply Forall2_impl; [exact Hall|].
           intros a b. unfold stored_as. destruct (pk a); [done|].
           intros (k & -> & Hk & Hrow). exists k. repeat split; [|done].
           rewrite length_app in Hk. simpl in Hk. lia.
Qed.

End Create.

(** ** Nodes and their rows *)

Lemma elem_of_all_nodes st p :
  p ∈ all_nodes st ↔ ∃ k, pk p = Some k ∧ load_node st k = Some p.
Proof.
  unfold all_nodes, load_node. rewrite elem_of_lookup_imap. split.
  - intros (k & row & -> & Hrow). exists k. by rewrite Hrow.
  - intros (k & Hpk & Hload).
    destruct (db_nodes st !! k) as [row|] eqn:Hrow; [|done].
    injection Hload as <-. eauto.
Qed.

Lemma all_nodes_node_of_store st p : p ∈ all_nodes st → node_of_store st p.
Proof.
  intros (k & Hpk & Hload)%elem_of_all_nodes k' Hk'. congruence.
Qed.

Lemma load_node_extend st st' k p :
  (∃ more, db_nodes st' = (db_nodes st ++ more)%list) →
  load_node st k = Some p → load_node st' k = Some p.
Proof.
  intros [more Hmore]. unfold load_node. rewrite Hmore.
  destruct (db_nodes st !! k) as [row|] eqn:Hrow; [|done].
  by rewrite (lookup_app_l_Some _ _ _ _ Hrow).
Qed.

Lemma load_node_below st st' k p :
  (∃ more, db_nodes st' = (db_nodes st ++ more)%list) →
  (k < length (db_nodes st))%nat →
  load_node st' k = Some p → load_node st k = Some p.
Proof.
  intros [more Hmore] Hk. unfold load_node. rewrite Hmore.
  by rewrite lookup_app_l.
Qed.

Lemma elem_of_add_members_iff members new k :
  k ∈ add_members members new ↔ k ∈ members ∨ k ∈ new.
Proof.
  split; [apply elem_of_add_members|].
  revert members. induction new as [|i new IH]; intros members; simpl.
  - intros [?|H]; [done|by apply elem_of_nil in H].
  - intros [H|H]; apply IH.
    + left. case_bool_decide; [done|]. apply elem_of_app. by left.
    + apply elem_of_cons in H as [->|H]; [|by right].
      left. case_bool_decide; [done|].
      apply elem_of_app. right. apply list_elem_of_here.
Qed.

(** The members of a group after the base class has added a batch of
    stored nodes: the members before, and the batch. *)
Lemma group_nodes_after_add g nodes st row m :
  db_groups st !! g = Some row →
  Forall (λ n, is_Some (pk n)) nodes →
  Forall (node_of_store st) nodes →
  (group_add_nodes g nodes st).1 = Ok tt
  ∧ db_nodes (group_add_nodes g nodes st).2 = db_nodes st
  ∧ (m ∈ group_nodes (group_add_nodes g nodes st).2 (Some g)
     ↔ m ∈ group_nodes st (Some g) ∨ m ∈ nodes).
Proof.
  intros Hrow Hstored Hcoh. unfold group_add_nodes.
  destruct (mapM pk nodes) as [keys|] eqn:Hkeys.
  2:{ exfalso. apply (mapM_is_Some pk) in Hstored.
      rewrite Hkeys in Hstored. by destruct Hstored. }
  apply mapM_Some in Hkeys. simpl. split; [done|split; [done|]].
  unfold group_nodes; simpl.
  rewrite list_lookup_alter, decide_True, Hrow by done. simpl.
  rewrite !list_elem_of_omap. unfold load_node; simpl.
  rewrite Forall_forall in Hcoh. split.
  - intros (k & Hk & Hload).
    apply elem_of_add_members in Hk as [Hk|Hk]; [left; eauto|right].
    apply list_elem_of_lookup in Hk as [i Hi].
    destruct (Forall2_lookup_r _ _ _ _ _ Hkeys Hi) as (n & Hn & Hpkn).
    assert (n ∈ nodes) as Hin by (apply list_elem_of_lookup; eauto).
    apply (Hcoh _ Hin) in Hpkn. unfold load_node in Hpkn. congruence.
  - intros [(k & Hk & Hload)|Hin].
    + exists k. split; [|done]. apply elem_of_add_members_iff. by left.
    + apply list_elem_of_lookup in Hin as [i Hi].
      destruct (Forall2_lookup_l _ _ _ _ _ Hkeys Hi) as (k & Hk & Hpkm).
      exists k. split.
      * apply elem_of_add_members_iff. right.
        apply list_elem_of_lookup. eauto.
      * apply (Hcoh m); [|done]. apply list_elem_of_lookup. eauto.
Qed.

Lemma stored_as_facts base st' x q :
  stored_as base st' x q →
  (pk x = None ∨ (is_Some (pk x) ∧ node_of_store st' x)) →
  ptype q = ptype x ∧ element q = element x ∧ md5 q = md5 x
  ∧ is_Some (pk q) ∧ node_of_store st' q.
Proof.
  unfold stored_as. destruct (pk x) as [k|] eqn:Hpk.
  - intros -> [?|[_ Hcoh]]; [done|]. rewrite Hpk. eauto 10.
  - intros (k & -> & _ & Hrow) _. simpl. repeat split; [eauto|].
    intros k' [= <-]. unfold load_node. rewrite Hrow. done.
Qed.

Section CreateFromFolder.

Variable cls : family_class.

(** The node the family takes for a parsed record: the record itself, or
    the first stored node of the accepted class with its checksum. *)
Lemma family_pseudo_cases deduplicate st p :
  (family_pseudo cls deduplicate st p = p
   ∧ (deduplicate = true → query_md5 cls st (md5 p) = []))
  ∨ (deduplicate = true
     ∧ builder_first (query_md5 cls st (md5 p))
       = Some (family_pseudo cls deduplicate st p)
     ∧ family_pseudo cls deduplicate st p ∈ all_nodes st
     ∧ ptype (family_pseudo cls deduplicate st p) = _pseudo_type cls
     ∧ md5 (family_pseudo cls deduplicate st p) = md5 p).
Proof.
  unfold family_pseudo, builder_first. destruct deduplicate; [|by left].
  destruct (query_md5 cls st (md5 p)) as [|e l] eqn:Hq; [by left|].
  right. simpl.
  assert (e ∈ query_md5 cls st (md5 p)) as Hin
    by (rewrite Hq; apply list_elem_of_here).
  apply list_elem_of_filter in Hin as [[Hty Hsum] Hin]. done.
Qed.

Lemma family_pseudo_accepted deduplicate st p :
  freshly_parsed cls p →
  ptype (family_pseudo cls deduplicate st p) = _pseudo_type cls
  ∧ (pk (family_pseudo cls deduplicate st p) = None
     ∨ (is_Some (pk (family_pseudo cls deduplicate st p))
        ∧ node_of_store st (family_pseudo cls deduplicate st p))).
Proof.
  intros (Hpk & Hty & _).
  destruct (family_pseudo_cases deduplicate st p)
    as [[-> _]|(_ & _ & Hin & Hty' & _)]; [by auto|].
  split; [done|right]. split; [|by apply all_nodes_node_of_store].
  apply elem_of_all_nodes in Hin as (k & -> & _). eauto.
Qed.

(** What [create_from_folder] builds when the label is free and the
    directory parses: the family has the next group key and a cache made
    of the nodes it was given; those nodes are the stored forms of the
    parsed records after deduplication, they are the members of the
    group, and the only new rows are those of the records stored. *)
Lemma create_from_folder_fresh fs dirpath label description deduplicate st
    parsed :
  label ∉ g_label <$> db_groups st →
  parse_pseudos_from_directory cls fs dirpath = Ok parsed →
  ∃ stored st',
    create_from_folder cls fs dirpath label description deduplicate st =
      (Ok (mkFamily (Some (length (db_groups st))) label description
             (Some (dict_by_element stored))), st')
    ∧ Forall2 (stored_as (length (db_nodes st)) st')
        (family_pseudo cls deduplicate st <$> parsed) stored
    ∧ db_nodes st' =
        (db_nodes st ++
           (row_of_node <$>
              filter (λ p, pk p = None)
                (family_pseudo cls deduplicate st <$> parsed)))%list
    ∧ Forall (λ n, ptype n = _pseudo_type cls ∧ node_of_store st' n) stored
    ∧ ∀ m, m ∈ group_nodes st' (Some (length (db_groups st))) ↔ m ∈ stored.
Proof.
  intros Hfresh Hparse.
  destruct (parse_pseudos_from_directory_Ok cls _ _ _ Hparse)
    as (Hparsed & _ & _).
  unfold create_from_folder. rewrite (objects_get_fresh _ _ Hfresh), Hparse.
  unfold family_store. simpl.
  set (fp := family_pseudo cls deduplicate st <$> parsed).
  set (g := length (db_groups st)).
  set (st1 := mkStore (db_nodes st)
                (db_groups st ++ [mkGroup label description []])).
  set (fam1 := mkFamily (Some g) label description None).
  destruct (store_all_spec fp st1) as (Hgroups & Hnodes & Hall).
  destruct (store_all fp st1) as [stored st2]. simpl in Hgroups, Hnodes, Hall.
  assert (Forall (λ x, ptype x = _pseudo_type cls
                       ∧ (pk x = None
                          ∨ (is_Some (pk x) ∧ node_of_store st2 x))) fp)
    as Hfp.
  { subst fp. rewrite Forall_fmap. eapply Forall_impl; [exact Hparsed|].
    intros p Hp. simpl.
    destruct (family_pseudo_accepted deduplicate st p Hp) as [Hty Hpk].
    split; [done|]. destruct Hpk as [?|[? Hcoh]]; [by left|right].
    split; [done|]. intros k Hk. eapply load_node_extend; [|by apply Hcoh].
    rewrite Hnodes. eauto. }
  assert (Forall (λ q, ptype q = _pseudo_type cls ∧ is_Some (pk q)
                       ∧ node_of_store st2 q) stored) as Hstored.
  { clear -Hall Hfp. induction Hall as [|x q fp stored Hxq _ IH];
      [constructor|].
    apply Forall_cons in Hfp as [[Hty Hpk] Hfp].
    constructor; [|by apply IH].
    destruct (stored_as_facts _ _ _ _ Hxq Hpk) as (-> & _ & _ & ? & ?).
    done. }
  assert (db_groups st2 !! g = Some (mkGroup label description [])) as Hrow.
  { rewrite Hgroups. subst st1 g. simpl. by rewrite list_lookup_middle. }
  assert (cached st2 fam1 = ∅) as Hcached.
  { unfold cached, group_nodes. simpl. by rewrite Hrow. }
  rewrite (add_nodes_accepted cls (NodeList stored) fam1 st2 g); first last.
  { simpl. rewrite Hcached. apply Forall_forall. intros ? _.
    apply lookup_empty. }
  { simpl. eapply Forall_impl; [exact Hstored|]. by intros ? [? _]. }
  { done. }
  cbn [as_list]. rewrite Hcached, (right_id_L ∅ (∪)).
  destruct (group_nodes_after_add g stored st2 _ (mkPseudo None
              PseudoPotentialData None "") Hrow) as (Hr & Hn3 & _).
  { eapply Forall_impl; [exact Hstored|]. by intros ? (_ & ? & _). }
  { eapply Forall_impl; [exact Hstored|]. by intros ? (_ & _ & ?). }
  destruct (group_add_nodes g stored st2) as [r st3] eqn:Hadd.
  simpl in Hr, Hn3. subst r.
  exists stored, st3. split; [done|].
  assert (∀ k row, db_nodes st2 !! k = Some row → db_nodes st3 !! k = Some row)
    as Hsame by (by rewrite Hn3).
  split; [|split; [|split]].
  - eapply Forall2_impl; [exact Hall|]. intros x q. unfold stored_as.
    destruct (pk x); [done|]. intros (k & ? & ? & ?). eauto.
  - by rewrite Hn3, Hnodes.
  - eapply Forall_impl; [exact Hstored|]. intros q (? & _ & Hcoh).
    split; [done|]. intros k Hk. specialize (Hcoh k Hk).
    unfold load_node in *. by rewrite Hn3.
  - intros m.
    destruct (group_nodes_after_add g stored st2 _ m Hrow) as (_ & _ & Hm).
    { eapply Forall_impl; [exact Hstored|]. by intros ? (_ & ? & _). }
    { eapply Forall_impl; [exact Hstored|]. by intros ? (_ & _ & ?). }
    rewrite Hadd in Hm. simpl in Hm. rewrite Hm.
    unfold group_nodes. simpl. rewrite Hrow. simpl.
    split; [intros [H|H]; [by apply elem_of_nil in H|done]|by right].
Qed.

End CreateFromFolder.

Lemma rows_of_unmatched cls st parsed :
  Forall (freshly_parsed cls) parsed →
  filter (λ p, pk p = None) (family_pseudo cls true st <$> parsed)
  = filter (λ p, query_md5 cls st (md5 p) = []) parsed.
Proof.
  induction 1 as [|p parsed Hp _ IH]; [done|].
  rewrite fmap_cons, !filter_cons, IH.
  destruct (family_pseudo_cases cls true st p)
    as [[-> Hq]|(_ & Hfirst & Hin & _)].
  - destruct Hp as (Hpk & _).
    rewrite decide_True by done. rewrite decide_True by auto. done.
  - apply elem_of_all_nodes in Hin as (k & Hpk & _).
    rewrite decide_False by (by rewrite Hpk).
    rewrite decide_False; [done|].
    intros Hq. by rewrite Hq in Hfirst.
Qed.

(** C4.  With [deduplicate] true, a free label and a directory that
    parses, [create_from_folder] returns a family such that, for every
    parsed record whose checksum is that of a stored node of the accepted
    class itself, the node the query finds first, a node that was in the
    database before with its key, class and checksum, is a member of the
    family; no member with that checksum is a new node, and the only rows
    added to the database are those of the parsed records without such a
    match. *)
Theorem create_from_folder_reuses_stored_pseudos
    (cls : family_class) (fs : gmap string fsobj) (dirpath label : string)
    (description : option string) (st : store) (parsed : list pseudo) :
  label ∉ g_label <$> db_groups st →
  parse_pseudos_from_directory cls fs dirpath = Ok parsed →
  ∃ fam st',
    create_from_folder cls fs dirpath label description true st
      = (Ok fam, st')
    ∧ db_nodes st' =
        (db_nodes st ++
           (row_of_node <$>
              filter (λ p, query_md5 cls st (md5 p) = []) parsed))%list
    ∧ ∀ p existing,
        p ∈ parsed → existing ∈ all_nodes st →
        ptype existing = _pseudo_type cls → md5 existing = md5 p →
        ∃ member,
          builder_first (query_md5 cls st (md5 p)) = Some member
          ∧ member ∈ all_nodes st
          ∧ ptype member = _pseudo_type cls
          ∧ md5 member = md5 p
          ∧ member ∈ group_nodes st' (f_pk fam)
          ∧ ∀ m, m ∈ group_nodes st' (f_pk fam) → md5 m = md5 p →
                 m ∈ all_nodes st.
Proof.
  intros Hfresh Hparse.
  destruct (parse_pseudos_from_directory_Ok cls _ _ _ Hparse)
    as (Hparsed & _ & _).
  destruct (create_from_folder_fresh cls fs dirpath label description true st
              parsed Hfresh Hparse)
    as (stored & st' & Hcreate & Hall & Hnodes & Hstored & Hmembers).
  eexists _, st'. split; [exact Hcreate|]. split.
  { by rewrite Hnodes, (rows_of_unmatched cls st parsed Hparsed). }
  intros p existing Hp Hex Hty Hsum. simpl.
  assert (existing ∈ query_md5 cls st (md5 p)) as Hmatch
    by (by apply list_elem_of_filter).
  destruct (family_pseudo_cases cls true st p)
    as [[_ Hq]|(_ & Hfirst & Hin & Hty' & Hsum')].
  { rewrite Hq in Hmatch by done. by apply elem_of_nil in Hmatch. }
  exists (family_pseudo cls true st p). repeat split; try done.
  - apply Hmembers.
    assert (family_pseudo cls true st p
            ∈ family_pseudo cls true st <$> parsed) as Hfp
      by (apply list_elem_of_fmap; eauto).
    apply list_elem_of_lookup in Hfp as [i Hi].
    destruct (Forall2_lookup_l _ _ _ _ _ Hall Hi) as (q & Hq & Has).
    unfold stored_as in Has.
    apply elem_of_all_nodes in Hin as (k & Hpk & _). rewrite Hpk in Has.
    subst q. apply list_elem_of_lookup. eauto.
  - intros m Hm Hmsum. apply Hmembers in Hm.
    apply list_elem_of_lookup in Hm as [i Hi].
    destruct (Forall2_lookup_r _ _ _ _ _ Hall Hi) as (x & Hx & Has).
    apply list_elem_of_lookup_2, list_elem_of_fmap in Hx
      as (p' & -> & Hp').
    destruct (family_pseudo_cases cls true st p')
      as [[Heq Hq]|(_ & _ & Hin' & _)].
    + rewrite Heq in Has. rewrite Forall_forall in Hparsed.
      destruct (Hparsed p' Hp') as (Hpk' & _).
      unfold stored_as in Has. rewrite Hpk' in Has.
      destruct Has as (k & -> & _). simpl in Hmsum.
      rewrite <- Hmsum, Hq in Hmatch by done. by apply elem_of_nil in Hmatch.
    + unfold stored_as in Has.
      pose proof Hin' as Hin''.
      apply elem_of_all_nodes in Hin'' as (k & Hpk & _).
      rewrite Hpk in Has. by subst m.
Qed.

Lemma create_from_folder_reuses_stored_pseudos_witness :
  ∃ fam st',
    create_from_folder PseudoPotentialFamily dir_H_He "/pseudos" "new"
      (Some "") true store_one_H = (Ok fam, st')
    ∧ db_nodes st' =
        [mkRow PseudoPotentialData (Some "H") "a";
         mkRow PseudoPotentialData (Some "He") "b"]
    ∧ mkPseudo (Some 0) PseudoPotentialData (Some "H") "a"
      ∈ group_nodes st' (f_pk fam).
Proof.
  destruct (create_from_folder_reuses_stored_pseudos PseudoPotentialFamily
              dir_H_He "/pseudos" "new" (Some "") store_one_H
              [mkPseudo None PseudoPotentialData (Some "H") "a";
               mkPseudo None PseudoPotentialData (Some "He") "b"])
    as (fam & st' & Hcreate & Hnodes & Hreuse).
  - vm_compute. apply not_elem_of_nil.
  - vm_compute. reflexivity.
  - exists fam, st'. split; [exact Hcreate|]. split; [exact Hnodes|].
    destruct (Hreuse (mkPseudo None PseudoPotentialData (Some "H") "a")
                (mkPseudo (Some 0) PseudoPotentialData (Some "H") "a"))
      as (member & Hfirst & _ & _ & _ & Hmember & _).
    + apply list_elem_of_here.
    + vm_compute. apply list_elem_of_here.
    + reflexivity.
    + reflexivity.
    + vm_compute in Hfirst. injection Hfirst as <-. exact Hmember.
Defined.

(** ** get_pseudo *)

Lemma issubclass_refl c : issubclass c c = true.
Proof. by destruct c. Qed.

Section GetPseudo.

Variable cls : family_class.

Lemma get_pseudo_cached e self st r :
  cached st self !! Some e = Some r →
  get_pseudo cls e (self, st) = (Ok r, (populated st self, st)).
Proof.
  intros Hr. unfold get_pseudo, bind at 1. by rewrite pseudos_spec, Hr.
Qed.

Lemma get_pseudo_not_found e self st :
  cached st self !! Some e = None →
  query_element cls st (f_pk self) e = [] →
  get_pseudo cls e (self, st) =
    (Raise (ValueError ("family `" ++ label self
              ++ "` does not contain pseudo for element `" ++ e ++ "`")),
     (populated st self, st)).
Proof.
  intros Hmiss Hq. unfold get_pseudo, bind at 1. rewrite pseudos_spec, Hmiss.
  unfold bind, get_state. simpl. by rewrite Hq.
Qed.

Lemma get_pseudo_multiple e self st :
  cached st self !! Some e = None →
  (1 < length (query_element cls st (f_pk self) e))%nat →
  get_pseudo cls e (self, st) =
    (Raise (RuntimeError ("family `" ++ label self
              ++ "` contains multiple pseudos for `" ++ e ++ "`")),
     (populated st self, st)).
Proof.
  intros Hmiss Hq. unfold get_pseudo, bind at 1. rewrite pseudos_spec, Hmiss.
  unfold bind, get_state. simpl.
  destruct (query_element cls st (f_pk self) e) as [|a [|b l]];
    simpl in Hq; try lia. done.
Qed.

Lemma get_pseudo_found e self st r :
  cached st self !! Some e = None →
  query_element cls st (f_pk self) e = [r] →
  get_pseudo cls e (self, st) =
    (Ok r, (set_cache self (<[Some e := r]> (cached st self)), st)).
Proof.
  intros Hmiss Hq. unfold get_pseudo, bind at 1. rewrite pseudos_spec, Hmiss.
  unfold bind, get_state. simpl. rewrite Hq. simpl.
  done.
Qed.

End GetPseudo.

(** C2, as the code has it.  When the label is free and the directory
    parses, [create_from_folder] returns a family for which [get_pseudo]
    returns a node with element [e] for the element [e] of every parsed
    record in whose place the deduplication did not put a node with
    another element, whatever it did with the other records; [get_pseudo]
    raises [ValueError] (NotFoundError) for every element that no node of
    the group has; and for any family, when the cache does not have the
    element and the query returns more than one node, [get_pseudo] raises
    [RuntimeError] (LookupConsistencyError). *)
Theorem get_pseudo_after_create_from_folder
    (cls : family_class) (fs : gmap string fsobj) (dirpath name : string)
    (description : option string) (deduplicate : bool) (st : store)
    (parsed : list pseudo) :
  name ∉ g_label <$> db_groups st →
  parse_pseudos_from_directory cls fs dirpath = Ok parsed →
  ∃ fam st',
    create_from_folder cls fs dirpath name description deduplicate st
      = (Ok fam, st')
    ∧ (∀ p e, p ∈ parsed → element p = Some e →
         element (family_pseudo cls deduplicate st p) = element p →
         ∃ r, get_pseudo cls e (fam, st') = (Ok r, (fam, st'))
              ∧ element r = Some e)
    ∧ (∀ e, query_element cls st' (f_pk fam) e = [] →
         get_pseudo cls e (fam, st') =
           (Raise (ValueError ("family `" ++ name
                     ++ "` does not contain pseudo for element `" ++ e ++ "`")),
            (fam, st')))
    ∧ (∀ self db e,
         cached db self !! Some e = None →
         (1 < length (query_element cls db (f_pk self) e))%nat →
         get_pseudo cls e (self, db) =
           (Raise (RuntimeError ("family `" ++ label self
                     ++ "` contains multiple pseudos for `" ++ e ++ "`")),
            (populated db self, db))).
Proof.
  intros Hfresh Hparse.
  destruct (create_from_folder_fresh cls fs dirpath name description
              deduplicate st parsed Hfresh Hparse)
    as (stored & st' & Hcreate & Hall & _ & Hstored & Hmembers).
  set (fam := mkFamily (Some (length (db_groups st))) name description
                (Some (dict_by_element stored))) in *.
  exists fam, st'. split; [exact Hcreate|]. split; [|split].
  - intros p e Hp He Hsame.
    assert (Some e ∈ element <$> stored) as Hin.
    { assert (family_pseudo cls deduplicate st p
              ∈ family_pseudo cls deduplicate st <$> parsed) as Hfp
        by (apply list_elem_of_fmap; eauto).
      apply list_elem_of_lookup in Hfp as [i Hi].
      destruct (Forall2_lookup_l _ _ _ _ _ Hall Hi) as (q & Hq & Has).
      apply list_elem_of_fmap. exists q.
      split; [|by eapply list_elem_of_lookup_2].
      rewrite <- He, <- Hsame. unfold stored_as in Has.
      destruct (pk (family_pseudo cls deduplicate st p));
        [by subst q|by destruct Has as (k & -> & _)]. }
    apply dict_by_element_is_Some in Hin as [r Hr].
    exists r. split; [by apply get_pseudo_cached|].
    by apply dict_by_element_lookup in Hr as [_ ?].
  - intros e Hq.
    assert (cached st' fam !! Some e = None) as Hmiss; [|
      by rewrite (get_pseudo_not_found cls e fam st' Hmiss Hq)].
    simpl. destruct (dict_by_element stored !! Some e) as [r|] eqn:Hr; [|done].
    exfalso. apply dict_by_element_lookup in Hr as [Hin Hel].
    assert (r ∈ query_element cls st' (Some (length (db_groups st))) e) as Hr.
    { apply list_elem_of_filter. split; [|by apply Hmembers].
      rewrite Forall_forall in Hstored.
      destruct (Hstored r Hin) as [-> _]. by rewrite issubclass_refl. }
    simpl in Hq. rewrite Hq in Hr. by apply elem_of_nil in Hr.
  - intros self db e. apply get_pseudo_multiple.
Qed.

Lemma get_pseudo_after_create_from_folder_witness :
  ∃ fam st',
    create_from_folder PseudoPotentialFamily dir_Li_He "/pseudos" "new"
      (Some "") true store_one_H = (Ok fam, st')
    ∧ (∃ r, get_pseudo PseudoPotentialFamily "Li" (fam, st')
            = (Ok r, (fam, st')) ∧ element r = Some "Li")
    ∧ get_pseudo PseudoPotentialFamily "He" (fam, st')
      = (Raise (ValueError
           "family `new` does not contain pseudo for element `He`"),
         (fam, st'))
    ∧ get_pseudo PseudoPotentialFamily "H" (family_stale, store_two_H_members)
      = (Raise (RuntimeError "family `SSSP` contains multiple pseudos for `H`"),
         (family_stale, store_two_H_members)).
Proof.
  destruct (get_pseudo_after_create_from_folder PseudoPotentialFamily
              dir_Li_He "/pseudos" "new" (Some "") true store_one_H
              [mkPseudo None PseudoPotentialData (Some "Li") "c";
               mkPseudo None PseudoPotentialData (Some "He") "a"])
    as (fam & st' & Hcreate & Hget & Hmissing & Hmultiple).
  - vm_compute. apply not_elem_of_nil.
  - vm_compute. reflexivity.
  - exists fam, st'. split; [exact Hcreate|]. split; [|split].
    + apply (Hget (mkPseudo None PseudoPotentialData (Some "Li") "c"));
        [apply list_elem_of_here|reflexivity|reflexivity].
    + apply Hmissing. vm_compute in Hcreate.
      injection Hcreate as <- <-. vm_compute. reflexivity.
    + apply (Hmultiple family_stale store_two_H_members "H").
      * vm_compute. reflexivity.
      * vm_compute. lia.
Defined.

(** C2, as stated, fails: the family [B] is created, with deduplication,
    from a directory whose file [He.upf] has the content of the stored
    hydrogen node of the family [A]; that node takes the place of the
    parsed record, and [get_pseudo] raises [ValueError] for [He], an
    element parsed from the directory. *)
Lemma get_pseudo_misses_deduplicated_element :
  create_from_folder PseudoPotentialFamily two_dirs "/first" "A" (Some "")
    true empty_store
  = (Ok (mkFamily (Some 0) "A" (Some "")
           (Some {[ Some "H" :=
                      mkPseudo (Some 0) PseudoPotentialData (Some "H") "a" ]})),
     store_with_A)
  ∧ parse_pseudos_from_directory PseudoPotentialFamily two_dirs "/second"
    = Ok [mkPseudo None PseudoPotentialData (Some "He") "a"]
  ∧ create_from_folder PseudoPotentialFamily two_dirs "/second" "B" (Some "")
      true store_with_A
    = (Ok family_B, store_with_A_B)
  ∧ get_pseudo PseudoPotentialFamily "He" (family_B, store_with_A_B)
    = (Raise (ValueError
         "family `B` does not contain pseudo for element `He`"),
       (family_B, store_with_A_B)).
Proof. repeat split; vm_compute; reflexivity. Qed.

(** ** get_pseudos *)

Section GetPseudos.

Variable cls : family_class.

Lemma get_pseudo_fst el self st :
  (get_pseudo cls el (self, st)).1
  = get_pseudo_result cls (cached st self) self st el.
Proof.
  unfold get_pseudo_result.
  destruct (cached st self !! Some el) as [r|] eqn:Hc.
  { by rewrite (get_pseudo_cached cls el self st r). }
  destruct (query_element cls st (f_pk self) el) as [|r [|r' l]] eqn:Hq.
  - by rewrite get_pseudo_not_found.
  - by rewrite (get_pseudo_found cls el self st r).
  - rewrite get_pseudo_multiple; [done..|]. rewrite Hq. simpl. lia.
Qed.

(** A lookup leaves the database alone, and changes the family in no way
    a later lookup could tell. *)
Lemma get_pseudo_snd el self st :
  ∃ self',
    (get_pseudo cls el (self, st)).2 = (self', st)
    ∧ ∀ el', get_pseudo_result cls (cached st self') self' st el'
             = get_pseudo_result cls (cached st self) self st el'.
Proof.
  destruct (cached st self !! Some el) as [r|] eqn:Hc.
  { rewrite (get_pseudo_cached cls el self st r) by done. eauto. }
  destruct (query_element cls st (f_pk self) el) as [|r [|r' l]] eqn:Hq.
  - rewrite get_pseudo_not_found by done. eauto.
  - rewrite (get_pseudo_found cls el self st r) by done.
    eexists. split; [done|]. intros el'. unfold get_pseudo_result. simpl.
    change (cached st (set_cache self (<[Some el:=r]> (cached st self))))
      with (<[Some el:=r]> (cached st self)).
    destruct (decide (el' = el)) as [->|Hne].
    + by rewrite lookup_insert_eq, Hc, Hq.
    + rewrite lookup_insert_ne by congruence. done.
  - rewrite get_pseudo_multiple; [eauto|done|]. rewrite Hq. simpl. lia.
Qed.

(** The comprehension gives the dictionary of the lookups, each as it
    would have been on the state the comprehension started from. *)
Lemma get_each_fst items acc self st self0 :
  (∀ el, get_pseudo_result cls (cached st self) self st el
         = get_pseudo_result cls (cached st self0) self0 st el) →
  (get_each cls items acc (self, st)).1
  = mapping_of (λ el, (get_pseudo cls el (self0, st)).1) items acc.
Proof.
  revert acc self. induction items as [|el items IH]; intros acc self Hsame;
    [done|].
  simpl. unfold bind.
  pose proof (get_pseudo_fst el self st) as Hfst.
  destruct (get_pseudo_snd el self st) as (self' & Hsnd & Hsame').
  destruct (get_pseudo cls el (self, st)) as [r s'].
  simpl in Hfst, Hsnd. subst s'.
  rewrite (get_pseudo_fst el self0 st), <- Hsame, <- Hfst.
  destruct r as [r|e]; [|done].
  apply IH. intros el'. by rewrite Hsame'.
Qed.

End GetPseudos.

(** C9.  [get_pseudos] raises [ValueError] (InvalidInputError) when both
    [elements] and [structure] are given and when neither is; given a
    list or a tuple of elements alone, or a structure alone, whose kinds
    then give the elements, it returns the dictionary that maps each of
    them to what [get_pseudo] returns for it, and raises what the first
    failing lookup raises. *)
Theorem get_pseudos_one_of_elements_and_structure
    (cls : family_class) (self : family) (st : store) :
  (∀ elements structure,
     is_none elements = false → is_none structure = false →
     get_pseudos cls elements structure (self, st) =
       (Raise (ValueError
          "cannot specify both keyword arguments `elements` and `structure`."),
        (self, st)))
  ∧ get_pseudos cls PyNone PyNone (self, st) =
      (Raise (ValueError
         "have to specify one of the keyword arguments `elements` and `structure`."),
       (self, st))
  ∧ (∀ items elements,
       elements = PyList items ∨ elements = PyTuple items →
       (get_pseudos cls elements PyNone (self, st)).1
       = mapping_of (λ el, (get_pseudo cls el (self, st)).1) items ∅)
  ∧ (∀ structure,
       (get_pseudos cls PyNone (PyStructure structure) (self, st)).1
       = mapping_of (λ el, (get_pseudo cls el (self, st)).1)
           (symbol <$> kinds structure) ∅).
Proof.
  split; [|split; [|split]].
  - intros elements structure He Hs. unfold get_pseudos, requested_elements.
    by rewrite He, Hs.
  - done.
  - intros items elements [-> | ->]; unfold get_pseudos; simpl;
      by apply get_each_fst.
  - intros structure. unfold get_pseudos. simpl. by apply get_each_fst.
Qed.

(** C10.  A structure passed as [elements], with no [structure], goes
    through the checks on the arguments as it is, although it is neither
    a list nor a tuple, where a string is refused; the comprehension then
    has it to iterate over, which Python answers with its own
    [TypeError]. *)
Theorem get_pseudos_structure_passed_as_elements
    (cls : family_class) (structure : StructureData)
    (self : family) (st : store) :
  requested_elements (PyStructure structure) PyNone
    = Ok (PyStructure structure)
  ∧ get_pseudos cls (PyStructure structure) PyNone (self, st)
    = (match py_iter (PyStructure structure) with
       | Ok items => get_each cls items ∅ (self, st)
       | Raise e => (Raise e, (self, st))
       end)
  ∧ get_pseudos cls (PyStructure structure) PyNone (self, st)
    = (Raise (TypeError "'StructureData' object is not iterable"), (self, st))
  ∧ ∀ s, requested_elements (PyStr s) PyNone
         = Raise (ValueError "elements should be a list or tuple of symbols.").
Proof. repeat split. Qed.

Lemma get_pseudos_one_of_elements_and_structure_witness :
  get_pseudos PseudoPotentialFamily (PyList ["H"])
    (PyStructure (mkStructure [mkKind "H"])) (family_B, store_with_A_B)
  = (Raise (ValueError
       "cannot specify both keyword arguments `elements` and `structure`."),
     (family_B, store_with_A_B))
  ∧ (get_pseudos PseudoPotentialFamily (PyTuple ["H"; "Li"]) PyNone
       (family_B, store_with_A_B)).1
    = Raise (ValueError "family `B` does not contain pseudo for element `Li`").
Proof.
  destruct (get_pseudos_one_of_elements_and_structure PseudoPotentialFamily
              family_B store_with_A_B) as (Hboth & _ & Helements & _).
  split.
  - apply Hboth; reflexivity.
  - etrans; [apply (Helements ["H"; "Li"]); by right|].
    vm_compute. reflexivity.
Defined.

(** ** A family of two elements, from the directory to the lookups *)

Example family_of_H_and_He :
  ∃ fam st,
    create_from_folder PseudoPotentialFamily dir_H_He "/pseudos" "X" (Some "")
      true empty_store = (Ok fam, st)
    ∧ group_nodes st (f_pk fam)
      = [mkPseudo (Some 0) PseudoPotentialData (Some "H") "a";
         mkPseudo (Some 1) PseudoPotentialData (Some "He") "b"]
    ∧ (get_pseudos PseudoPotentialFamily (PyList ["H"; "He"]) PyNone
         (fam, st)).1
      = Ok {[ "H" := mkPseudo (Some 0) PseudoPotentialData (Some "H") "a";
              "He" := mkPseudo (Some 1) PseudoPotentialData (Some "He") "b" ]}
    ∧ (get_pseudos PseudoPotentialFamily (PyList ["Li"]) PyNone (fam, st)).1
      = Raise (ValueError
          "family `X` does not contain pseudo for element `Li`").
Proof.
  eexists _, _. split; [vm_compute; reflexivity|].
  repeat split; vm_compute; reflexivity.
Qed.

(** ** The class of the members, after a lookup *)

(** A lookup, which may add the node it found to the cache, keeps every
    member of the accepted class. *)
Lemma get_pseudo_keeps_members_of_accepted_type cls el self st :
  members_of_accepted_type cls self st →
  members_of_accepted_type cls (get_pseudo cls el (self, st)).2.1
    (get_pseudo cls el (self, st)).2.2.
Proof.
  intros Hinv.
  pose proof (populated_members_of_accepted_type cls self st Hinv) as Hpop.
  destruct (cached st self !! Some el) as [r|] eqn:Hc.
  { by rewrite (get_pseudo_cached cls el self st r). }
  destruct (query_element cls st (f_pk self) el) as [|r [|r' l]] eqn:Hq.
  - by rewrite get_pseudo_not_found.
  - rewrite (get_pseudo_found cls el self st r) by done. simpl.
    destruct Hinv as [Hgroup _]. split; [done|].
    intros d k n [= <-] Hk.
    destruct (decide (k = Some el)) as [->|Hne].
    + rewrite lookup_insert_eq in Hk. injection Hk as <-.
      assert (r ∈ query_element cls st (f_pk self) el) as Hr
        by (rewrite Hq; apply list_elem_of_here).
      apply list_elem_of_filter in Hr as [_ Hr].
      rewrite Forall_forall in Hgroup. by apply Hgroup.
    + rewrite lookup_insert_ne in Hk by done.
      destruct Hpop as [_ Hcache]. by eapply (Hcache _ k n eq_refl).
  - rewrite get_pseudo_multiple; [done..|]. rewrite Hq. simpl. lia.
Qed.

(** The family [create_from_folder] returns has members of the accepted
    class only. *)
Lemma create_from_folder_members_of_accepted_type cls fs dirpath name
    description deduplicate st parsed :
  name ∉ g_label <$> db_groups st →
  parse_pseudos_from_directory cls fs dirpath = Ok parsed →
  ∃ fam st',
    create_from_folder cls fs dirpath name description deduplicate st
      = (Ok fam, st')
    ∧ members_of_accepted_type cls fam st'.
Proof.
  intros Hfresh Hparse.
  destruct (create_from_folder_fresh cls fs dirpath name description
              deduplicate st parsed Hfresh Hparse)
    as (stored & st' & Hcreate & _ & _ & Hstored & Hmembers).
  eexists _, st'. split; [exact Hcreate|].
  rewrite Forall_forall in Hstored. split; simpl.
  - apply Forall_forall. intros n Hn. apply Hmembers in Hn.
    by destruct (Hstored n Hn).
  - intros d k n [= <-] Hk. apply dict_by_element_lookup in Hk as [Hin _].
    by destruct (Hstored n Hin).
Qed.

(** * Further properties *)

(** ** What the parser returns, and when *)

Lemma parse_entries_Ok_iff cls dirpath entries acc ps :
  parse_entries cls dirpath entries acc = Ok ps ↔
  ∃ new, ps = (acc ++ new)%list
         ∧ Forall2 (file_parses cls dirpath) entries new.
Proof.
  revert acc. induction entries as [|[name o] entries IH]; intros acc; simpl.
  - split.
    + intros [= <-]. exists []. by rewrite app_nil_r.
    + intros (new & -> & Hall). apply Forall2_nil_inv_l in Hall as ->.
      by rewrite app_nil_r.
  - split.
    + destruct o as [content| |]; try done.
      destruct (parse_file cls dirpath name content) as [p|] eqn:Hp; [|done].
      intros (new & -> & Hall)%IH. exists (p :: new).
      split; [by rewrite <- app_assoc|].
      constructor; [|done]. by exists content.
    + intros (new & -> & Hall).
      apply Forall2_cons_inv_l in Hall
        as (p & new' & (content & Ho & Hp) & Hall & ->).
      simpl in Ho, Hp. subst o. rewrite Hp. apply IH.
      exists new'. by rewrite <- app_assoc.
Qed.

(** X1.  The parser returns a list exactly when the directory it settles on
    holds regular files only, each of which the loop makes a record of,
    at least one, and no two records have the same element; the list then
    has those records, one per file, in the order of the listing. *)
Theorem parse_pseudos_from_directory_Ok_iff
    (cls : family_class) (fs : gmap string fsobj) (dirpath : string)
    (contents : list (string * fsobj)) (parsed : list pseudo) :
  fs !! dirpath = Some (FsDir contents) →
  parse_pseudos_from_directory cls fs dirpath = Ok parsed ↔
  Forall2 (file_parses cls (resolve_level dirpath contents).1)
    (resolve_level dirpath contents).2 parsed
  ∧ parsed ≠ [] ∧ NoDup (element <$> parsed).
Proof.
  intros Hfs. unfold parse_pseudos_from_directory. rewrite Hfs.
  destruct (resolve_level dirpath contents) as [level entries]. simpl.
  split.
  - destruct (parse_entries cls level entries []) as [ps|] eqn:Hloop; [|done].
    intros (-> & Hne & Hnd)%check_parsed_Ok.
    apply parse_entries_Ok_iff in Hloop as (new & -> & Hall). done.
  - intros (Hall & Hne & Hnd).
    assert (parse_entries cls level entries [] = Ok parsed) as ->
      by (apply parse_entries_Ok_iff; by exists parsed).
    by apply check_parsed_ok.
Qed.

Lemma parse_pseudos_from_directory_Ok_iff_witness :
  parse_pseudos_from_directory PseudoPotentialFamily dir_H_He "/pseudos"
  = Ok [mkPseudo None PseudoPotentialData (Some "H") "a";
        mkPseudo None PseudoPotentialData (Some "He") "b"].
Proof.
  apply (parse_pseudos_from_directory_Ok_iff PseudoPotentialFamily dir_H_He
           "/pseudos"
           [("H.upf", FsFile [x61%byte]); ("He.upf", FsFile [x62%byte])]).
  - vm_compute. reflexivity.
  - split; [|split].
    + repeat constructor.
      * exists [x61%byte]. split; vm_compute; reflexivity.
      * exists [x62%byte]. split; vm_compute; reflexivity.
    + discriminate.
    + apply (bool_decide_unpack _). vm_compute. exact I.
Defined.

(** X2.  The first file the constructor fails on decides the exception,
    whatever is listed after it: a [ParsingError] comes out with the path
    of the file put before its message, any other exception as the
    constructor raised it. *)
Theorem parse_pseudos_from_directory_constructor_fails
    (cls : family_class) (fs : gmap string fsobj) (dirpath : string)
    (contents before after : list (string * fsobj)) (name : string)
    (content : list byte) (parsed : list pseudo) (e : exn) :
  fs !! dirpath = Some (FsDir contents) →
  (resolve_level dirpath contents).2
    = (before ++ (name, FsFile content) :: after)%list →
  parse_entries cls (resolve_level dirpath contents).1 before [] = Ok parsed →
  construct cls content name = Raise e →
  parse_pseudos_from_directory cls fs dirpath =
    Raise (match e with
           | ParsingError m =>
               ParsingError
                 ("failed to parse `"
                  ++ path_join (resolve_level dirpath contents).1 name
                  ++ "`: " ++ m)
           | _ => e
           end).
Proof.
  intros Hfs Hentries Hbefore Hc. unfold parse_pseudos_from_directory.
  rewrite Hfs. destruct (resolve_level dirpath contents) as [level entries].
  simpl in *. subst entries. rewrite parse_entries_app, Hbefore. simpl.
  unfold parse_file. rewrite Hc. by destruct e.
Qed.

Lemma parse_pseudos_from_directory_constructor_fails_witness :
  parse_pseudos_from_directory StrictFamily dir_empty_file_then_subdirectory
    "/pseudos"
  = Raise (ParsingError
      "failed to parse `/pseudos/H.upf`: could not parse the element").
Proof.
  apply (parse_pseudos_from_directory_constructor_fails StrictFamily
           dir_empty_file_then_subdirectory "/pseudos"
           [("H.upf", FsFile []); ("nested", FsDir [])]
           [] [("nested", FsDir [])] "H.upf" [] []
           (ParsingError "could not parse the element")).
  - vm_compute. reflexivity.
  - vm_compute. reflexivity.
  - vm_compute. reflexivity.
  - vm_compute. reflexivity.
Defined.



(** ** When add_nodes succeeds, and what it writes *)

Lemma mapM_pk_is_Some (nodes : list pseudo) :
  is_Some (mapM pk nodes) ↔ Forall (λ n, is_Some (pk n)) nodes.
Proof. apply (mapM_is_Some pk). Qed.

Lemma group_add_nodes_fst g nodes st :
  (group_add_nodes g nodes st).1 = Ok tt
  ↔ Forall (λ n, is_Some (pk n)) nodes.
Proof.
  rewrite <- mapM_pk_is_Some. unfold group_add_nodes.
  destruct (mapM pk nodes); simpl; split; try done; eauto.
Qed.

Lemma add_nodes_Ok_inv cls nodes self st :
  (add_nodes cls nodes (self, st)).1 = Ok tt →
  is_Some (f_pk self)
  ∧ Forall (λ n, ptype n = _pseudo_type cls) (as_list nodes)
  ∧ Forall (λ n, cached st self !! element n = None) (as_list nodes)
  ∧ Forall (λ n, is_Some (pk n)) (as_list nodes).
Proof.
  intros Hok.
  destruct (f_pk self) as [g|] eqn:Hpk;
    [|by rewrite add_nodes_unstored in Hok].
  destruct (decide (Forall (λ n, ptype n = _pseudo_type cls) (as_list nodes)))
    as [Hty|Hty].
  2:{ apply not_Forall_Exists in Hty; [|apply _].
      apply Exists_exists in Hty as (n & Hin & Hn).
      by rewrite (add_nodes_wrong_type cls nodes self st g n) in Hok. }
  destruct (first_present (cached st self) (as_list nodes))
    as [Hfresh|(before & n & after & Hsplit & Hbefore & Hn)].
  2:{ by rewrite (add_nodes_element_present cls nodes self st g before n
                    after) in Hok. }
  rewrite (add_nodes_accepted cls nodes self st g) in Hok by done.
  repeat split; [eauto|done..|]. apply (group_add_nodes_fst g _ st).
  by destruct (group_add_nodes g (as_list nodes) st).
Qed.

(** X4.  [add_nodes] returns without an exception exactly when the family is
    stored, every node is of the accepted class itself, no node has an
    element that is a key of the cache, and every node is stored. *)
Theorem add_nodes_Ok_iff
    (cls : family_class) (nodes : nodes_arg) (self : family) (st : store) :
  (add_nodes cls nodes (self, st)).1 = Ok tt ↔
  is_Some (f_pk self)
  ∧ Forall (λ n, ptype n = _pseudo_type cls) (as_list nodes)
  ∧ Forall (λ n, cached st self !! element n = None) (as_list nodes)
  ∧ Forall (λ n, is_Some (pk n)) (as_list nodes).
Proof.
  split; [apply add_nodes_Ok_inv|].
  intros ([g Hpk] & Hty & Hfresh & Hstored).
  rewrite (add_nodes_accepted cls nodes self st g) by done.
  apply (group_add_nodes_fst g _ st) in Hstored.
  by destruct (group_add_nodes g (as_list nodes) st).
Qed.

Lemma add_nodes_Ok_iff_witness :
  (add_nodes PseudoPotentialFamily (OneNode hydrogen_b)
     (family_SSSP, store_two_H)).1 = Ok tt.
Proof.
  apply (add_nodes_Ok_iff PseudoPotentialFamily (OneNode hydrogen_b)
           family_SSSP store_two_H).
  split; [vm_compute; eauto|]. split; [|split]; apply Forall_singleton.
  - reflexivity.
  - vm_compute. reflexivity.
  - vm_compute. eauto.
Defined.

(** X5.  Whatever [add_nodes] returns, it stores no node and changes none, it
    leaves the other groups as they are, and it keeps the key, the label
    and the description of the family and of its group. *)
Theorem add_nodes_frame
    (cls : family_class) (nodes : nodes_arg) (self : family) (st : store) :
  let self' := (add_nodes cls nodes (self, st)).2.1 in
  let st' := (add_nodes cls nodes (self, st)).2.2 in
  f_pk self' = f_pk self ∧ label self' = label self
  ∧ description self' = description self
  ∧ db_nodes st' = db_nodes st
  ∧ length (db_groups st') = length (db_groups st)
  ∧ ∀ i row, db_groups st !! i = Some row →
      ∃ row', db_groups st' !! i = Some row'
              ∧ g_label row' = g_label row
              ∧ g_description row' = g_description row
              ∧ (f_pk self ≠ Some i → row' = row).
Proof.
  assert (∀ s : family * store,
            s = (self, st) ∨ s = (populated st self, st) →
            f_pk s.1 = f_pk self ∧ label s.1 = label self
            ∧ description s.1 = description self
            ∧ db_nodes s.2 = db_nodes st
            ∧ length (db_groups s.2) = length (db_groups st)
            ∧ ∀ i row, db_groups st !! i = Some row →
                ∃ row', db_groups s.2 !! i = Some row'
                        ∧ g_label row' = g_label row
                        ∧ g_description row' = g_description row
                        ∧ (f_pk self ≠ Some i → row' = row)) as Hsame.
  { intros s [-> | ->]; simpl; repeat split; eauto 10. }
  simpl.
  destruct (f_pk self) as [g|] eqn:Hpk.
  2:{ rewrite add_nodes_unstored by done. apply (Hsame (self, st)); auto. }
  destruct (decide (Forall (λ n, ptype n = _pseudo_type cls) (as_list nodes)))
    as [Hty|Hty].
  2:{ apply not_Forall_Exists in Hty; [|apply _].
      apply Exists_exists in Hty as (n & Hin & Hn).
      rewrite (add_nodes_wrong_type cls nodes self st g n) by done.
      apply (Hsame (self, st)); auto. }
  destruct (first_present (cached st self) (as_list nodes))
    as [Hfresh|(before & n & after & Hsplit & Hbefore & Hn)].
  2:{ rewrite (add_nodes_element_present cls nodes self st g before n after)
        by done.
      apply (Hsame (populated st self, st)); auto. }
  rewrite (add_nodes_accepted cls nodes self st g) by done.
  unfold group_add_nodes. destruct (mapM pk (as_list nodes)) as [keys|]; simpl.
  - do 4 (split; [done|]). split; [apply length_alter|].
    intros i row Hrow. rewrite list_lookup_alter.
    destruct (decide (g = i)) as [->|Hne]; rewrite Hrow; simpl.
    + eexists. split; [done|]. split; [done|]. split; [done|]. congruence.
    + eauto.
  - do 5 (split; [done|]). eauto 10.
Qed.

Lemma add_nodes_Ok_state cls nodes self st :
  (add_nodes cls nodes (self, st)).1 = Ok tt →
  ∃ g, f_pk self = Some g
       ∧ (add_nodes cls nodes (self, st)).2 =
           (set_cache self (dict_by_element (as_list nodes) ∪ cached st self),
            (group_add_nodes g (as_list nodes) st).2).
Proof.
  intros ([g Hpk] & Hty & Hfresh & Hstored)%add_nodes_Ok_inv.
  exists g. split; [done|].
  rewrite (add_nodes_accepted cls nodes self st g) by done.
  by destruct (group_add_nodes g (as_list nodes) st).
Qed.

(** X6.  After [add_nodes] has returned, the nodes of the group are those it
    had and those of the batch. *)
Theorem add_nodes_members
    (cls : family_class) (nodes : nodes_arg) (self : family) (st : store)
    (m : pseudo) :
  (add_nodes cls nodes (self, st)).1 = Ok tt →
  family_of_store self st →
  Forall (node_of_store st) (as_list nodes) →
  m ∈ group_nodes (add_nodes cls nodes (self, st)).2.2 (f_pk self)
  ↔ m ∈ group_nodes st (f_pk self) ∨ m ∈ as_list nodes.
Proof.
  intros Hok Hrow Hcoh.
  destruct (add_nodes_Ok_state cls nodes self st Hok) as (g & Hpk & ->).
  apply add_nodes_Ok_inv in Hok as (_ & _ & _ & Hstored).
  destruct (Hrow g Hpk) as [row Hg]. rewrite Hpk. simpl.
  by destruct (group_nodes_after_add g (as_list nodes) st row m Hg Hstored
                 Hcoh) as (_ & _ & ?).
Qed.

Lemma add_nodes_members_witness :
  hydrogen_b
  ∈ group_nodes
      (add_nodes PseudoPotentialFamily (OneNode hydrogen_b)
         (family_SSSP, store_two_H)).2.2 (f_pk family_SSSP).
Proof.
  apply (add_nodes_members PseudoPotentialFamily (OneNode hydrogen_b)
           family_SSSP store_two_H hydrogen_b).
  - vm_compute. reflexivity.
  - intros g [= <-]. vm_compute. eauto.
  - apply Forall_singleton. intros k [= <-]. vm_compute. reflexivity.
  - right. apply list_elem_of_here.
Defined.

Lemma dict_by_element_lookup_NoDup nodes n :
  NoDup (element <$> nodes) → n ∈ nodes →
  dict_by_element nodes !! element n = Some n.
Proof.
  intros Hnd Hin.
  assert (is_Some (dict_by_element nodes !! element n)) as [p Hp].
  { apply dict_by_element_is_Some, list_elem_of_fmap. eauto. }
  rewrite Hp. f_equal.
  apply dict_by_element_lookup in Hp as [Hpin Hel].
  apply list_elem_of_lookup in Hin as [i Hi].
  apply list_elem_of_lookup in Hpin as [j Hj].
  assert (i = j) as ->; [|congruence].
  eapply NoDup_lookup; [exact Hnd| |].
  - by rewrite list_lookup_fmap, Hi.
  - rewrite list_lookup_fmap, Hj. simpl. by rewrite Hel.
Qed.

(** X7.  After [add_nodes] has returned for a batch with no element twice, a
    lookup of the element of any node of the batch returns that node, and
    a lookup the cache answered before is answered as before. *)
Theorem add_nodes_then_get_pseudo
    (cls : family_class) (nodes : nodes_arg) (self : family) (st : store) :
  (add_nodes cls nodes (self, st)).1 = Ok tt →
  NoDup (element <$> as_list nodes) →
  (∀ n el, n ∈ as_list nodes → element n = Some el →
           (get_pseudo cls el (add_nodes cls nodes (self, st)).2).1 = Ok n)
  ∧ (∀ el r, cached st self !! Some el = Some r →
             (get_pseudo cls el (add_nodes cls nodes (self, st)).2).1 = Ok r).
Proof.
  intros Hok Hnd.
  destruct (add_nodes_Ok_state cls nodes self st Hok) as (g & Hpk & ->).
  apply add_nodes_Ok_inv in Hok as (_ & _ & Hfresh & _).
  split.
  - intros n el Hin Hel. rewrite (get_pseudo_cached cls el _ _ n); [done|].
    simpl. apply lookup_union_Some_raw. left.
    rewrite <- Hel. by apply dict_by_element_lookup_NoDup.
  - intros el r Hr. rewrite (get_pseudo_cached cls el _ _ r); [done|].
    simpl. apply lookup_union_Some_raw. right. split; [|done].
    destruct (dict_by_element (as_list nodes) !! Some el) as [p|] eqn:Hp;
      [|done].
    apply dict_by_element_lookup in Hp as [Hin Hel].
    rewrite Forall_forall in Hfresh. specialize (Hfresh p Hin).
    rewrite Hel in Hfresh. congruence.
Qed.

Lemma add_nodes_then_get_pseudo_witness :
  (get_pseudo PseudoPotentialFamily "H"
     (add_nodes PseudoPotentialFamily (OneNode hydrogen_b)
        (family_SSSP, store_two_H)).2).1 = Ok hydrogen_b.
Proof.
  apply (proj1 (add_nodes_then_get_pseudo PseudoPotentialFamily
                  (OneNode hydrogen_b) family_SSSP store_two_H
                  ltac:(vm_compute; reflexivity)
                  ltac:(vm_compute; apply NoDup_singleton))).
  - apply list_elem_of_here.
  - reflexivity.
Defined.

(** X8.  After [add_nodes] has returned, a second batch of the accepted class
    that has a node with the element of a node of the first is refused
    with [ValueError], and the family and the database stay as the first
    call left them. *)
Theorem add_nodes_twice
    (cls : family_class) (nodes nodes' : nodes_arg) (self : family)
    (st : store) (n n' : pseudo) :
  (add_nodes cls nodes (self, st)).1 = Ok tt →
  Forall (λ n, ptype n = _pseudo_type cls) (as_list nodes') →
  n ∈ as_list nodes → n' ∈ as_list nodes' → element n' = element n →
  ∃ m, m ∈ as_list nodes'
       ∧ add_nodes cls nodes' (add_nodes cls nodes (self, st)).2 =
           (Raise (ValueError ("element `" ++ str_element (element m)
                     ++ "` already present in this family")),
            (add_nodes cls nodes (self, st)).2).
Proof.
  intros Hok Hty Hn Hn' Hel.
  destruct (add_nodes_Ok_state cls nodes self st Hok) as (g & Hpk & ->).
  set (self1 := set_cache self _). set (st1 := (group_add_nodes _ _ _).2).
  destruct (first_present (cached st1 self1) (as_list nodes'))
    as [Hfresh|(before & m & after & Hsplit & Hbefore & Hm)].
  - exfalso. rewrite Forall_forall in Hfresh. specialize (Hfresh n' Hn').
    assert (is_Some (cached st1 self1 !! element n')) as [? ?]; [|congruence].
    simpl. rewrite Hel.
    assert (is_Some (dict_by_element (as_list nodes) !! element n))
      as [p Hp] by (apply dict_by_element_is_Some, list_elem_of_fmap; eauto).
    exists p. apply lookup_union_Some_raw. by left.
  - exists m. split.
    + rewrite Hsplit. apply elem_of_app. right. apply list_elem_of_here.
    + by rewrite (add_nodes_element_present cls nodes' self1 st1 g before m
                    after).
Qed.

Lemma add_nodes_twice_witness :
  ∃ m, m ∈ [hydrogen_a]
       ∧ add_nodes PseudoPotentialFamily (OneNode hydrogen_a)
           (add_nodes PseudoPotentialFamily (OneNode hydrogen_b)
              (family_SSSP, store_two_H)).2
         = (Raise (ValueError ("element `" ++ str_element (element m)
                     ++ "` already present in this family")),
            (add_nodes PseudoPotentialFamily (OneNode hydrogen_b)
               (family_SSSP, store_two_H)).2).
Proof.
  apply (add_nodes_twice PseudoPotentialFamily (OneNode hydrogen_b)
           (OneNode hydrogen_a) family_SSSP store_two_H hydrogen_b hydrogen_a).
  - vm_compute. reflexivity.
  - apply Forall_singleton. reflexivity.
  - apply list_elem_of_here.
  - apply list_elem_of_here.
  - reflexivity.
Defined.

(** X9.  When every check of [add_nodes] passes but a node of the batch is not
    stored, the call raises the [ValueError] of the base class and stores
    no node, but the cache of the instance has the whole batch already,
    the unstored node with it.  What the group holds by then is left to
    the base class and is not stated. *)
Theorem add_nodes_unstored_node
    (cls : family_class) (nodes : nodes_arg) (self : family) (st : store)
    (n : pseudo) :
  is_Some (f_pk self) →
  Forall (λ n, ptype n = _pseudo_type cls) (as_list nodes) →
  Forall (λ n, cached st self !! element n = None) (as_list nodes) →
  n ∈ as_list nodes → pk n = None →
  (add_nodes cls nodes (self, st)).1 =
    Raise (ValueError
      "At least one of the provided nodes is unstored, stopping...")
  ∧ (add_nodes cls nodes (self, st)).2.1 =
      set_cache self (dict_by_element (as_list nodes) ∪ cached st self)
  ∧ is_Some (cached st (add_nodes cls nodes (self, st)).2.1 !! element n)
  ∧ db_nodes (add_nodes cls nodes (self, st)).2.2 = db_nodes st.
Proof.
  intros [g Hpk] Hty Hfresh Hin Hn.
  rewrite (add_nodes_accepted cls nodes self st g) by done.
  unfold group_add_nodes.
  destruct (mapM pk (as_list nodes)) as [keys|] eqn:Hkeys.
  { exfalso. assert (is_Some (mapM pk (as_list nodes))) as Hs by eauto.
    apply mapM_pk_is_Some in Hs. rewrite Forall_forall in Hs.
    specialize (Hs n Hin). rewrite Hn in Hs. by destruct Hs. }
  simpl. do 2 (split; [done|]). split; [|done].
  assert (is_Some (dict_by_element (as_list nodes) !! element n)) as [q Hq]
    by (apply dict_by_element_is_Some, list_elem_of_fmap; eauto).
  exists q. apply lookup_union_Some_raw. by left.
Qed.

Lemma add_nodes_unstored_node_witness :
  (add_nodes PseudoPotentialFamily
     (NodeList [hydrogen_a;
                mkPseudo None PseudoPotentialData (Some "Li") "c"])
     (family_SSSP, store_two_H)).1
  = Raise (ValueError
      "At least one of the provided nodes is unstored, stopping...").
Proof.
  apply (add_nodes_unstored_node PseudoPotentialFamily
           (NodeList [hydrogen_a;
                      mkPseudo None PseudoPotentialData (Some "Li") "c"])
           family_SSSP store_two_H
           (mkPseudo None PseudoPotentialData (Some "Li") "c")).
  - vm_compute. eauto.
  - repeat constructor.
  - repeat constructor; vm_compute; reflexivity.
  - apply elem_of_cons. right. apply list_elem_of_here.
  - reflexivity.
Defined.

(** ** The cache and the group *)

Lemma populated_cache_consistent self st :
  cache_consistent self st → cache_consistent (populated st self) st.
Proof.
  intros Hc d [= <-]. unfold cached.
  destruct (_pseudos self) as [c|] eqn:Hself; [by apply Hc|]. split.
  - intros k n Hk. by apply dict_by_element_lookup in Hk.
  - intros n Hn. apply dict_by_element_is_Some, list_elem_of_fmap. eauto.
Qed.

(** What a consistent cache says of the dictionary [pseudos] returns. *)
Lemma cache_consistent_cached self st :
  cache_consistent self st →
  (∀ k n, cached st self !! k = Some n →
          n ∈ group_nodes st (f_pk self) ∧ element n = k)
  ∧ (∀ n, n ∈ group_nodes st (f_pk self) →
          is_Some (cached st self !! element n)).
Proof.
  intros Hc. by apply (populated_cache_consistent self st Hc (cached st self)).
Qed.

(** X10.  With a cache that agrees with the group, a lookup returns a node
    exactly for the elements the nodes of the group have, the node is then
    one of the group with that element, and every other element gets the
    [ValueError] of a missing pseudo: the [RuntimeError] of a family with
    several pseudos for an element is never raised. *)
Theorem get_pseudo_of_consistent_cache
    (cls : family_class) (el : string) (self : family) (st : store) :
  cache_consistent self st →
  (∀ r, (get_pseudo cls el (self, st)).1 = Ok r →
        r ∈ group_nodes st (f_pk self) ∧ element r = Some el)
  ∧ ((∃ n, n ∈ group_nodes st (f_pk self) ∧ element n = Some el) →
     ∃ r, (get_pseudo cls el (self, st)).1 = Ok r)
  ∧ ((∀ n, n ∈ group_nodes st (f_pk self) → element n ≠ Some el) →
     (get_pseudo cls el (self, st)).1 =
       Raise (ValueError ("family `" ++ label self
                ++ "` does not contain pseudo for element `" ++ el ++ "`"))).
Proof.
  intros Hc. destruct (cache_consistent_cached self st Hc) as [Hval Hkey].
  split; [|split].
  - intros r. rewrite get_pseudo_fst. unfold get_pseudo_result.
    destruct (cached st self !! Some el) as [p|] eqn:Hp.
    { intros [= <-]. by apply Hval. }
    destruct (query_element cls st (f_pk self) el) as [|p [|p' l]] eqn:Hq;
      [done| |done].
    simpl. intros [= ->].
    assert (r ∈ query_element cls st (f_pk self) el) as Hr
      by (rewrite Hq; apply list_elem_of_here).
    apply list_elem_of_filter in Hr as [[_ ?] ?]. done.
  - intros (n & Hn & Hel). destruct (Hkey n Hn) as [r Hr].
    rewrite Hel in Hr. exists r.
    by rewrite (get_pseudo_cached cls el self st r).
  - intros Hnone. rewrite get_pseudo_not_found; [done| |].
    + destruct (cached st self !! Some el) as [p|] eqn:Hp; [|done].
      destruct (Hval _ _ Hp) as [Hin Hel]. by destruct (Hnone p Hin).
    + destruct (query_element cls st (f_pk self) el) as [|p l] eqn:Hq; [done|].
      assert (p ∈ query_element cls st (f_pk self) el) as Hp
        by (rewrite Hq; apply list_elem_of_here).
      apply list_elem_of_filter in Hp as [[_ Hel] Hin].
      by destruct (Hnone p Hin).
Qed.

Lemma family_B_cache_consistent : cache_consistent family_B store_with_A_B.
Proof.
  intros d [= <-]. split.
  - intros k n Hk. apply elem_of_map_to_list in Hk. vm_compute in Hk.
    apply list_elem_of_singleton in Hk as [= -> ->].
    split; [vm_compute; apply list_elem_of_here|reflexivity].
  - intros n Hn. vm_compute in Hn. apply list_elem_of_singleton in Hn as ->.
    vm_compute. eauto.
Qed.

Lemma get_pseudo_of_consistent_cache_witness :
  (get_pseudo PseudoPotentialFamily "Li" (family_B, store_with_A_B)).1
  = Raise (ValueError "family `B` does not contain pseudo for element `Li`").
Proof.
  apply (get_pseudo_of_consistent_cache PseudoPotentialFamily "Li" family_B
           store_with_A_B).
  - exact family_B_cache_consistent.
  - intros n Hn. vm_compute in Hn. apply list_elem_of_singleton in Hn as ->.
    discriminate.
Defined.

Lemma get_pseudo_keeps_cache_consistent cls el self st :
  cache_consistent self st →
  cache_consistent (get_pseudo cls el (self, st)).2.1 st.
Proof.
  intros Hcons.
  pose proof (populated_cache_consistent self st Hcons) as Hpop.
  destruct (cached st self !! Some el) as [r|] eqn:Hc.
  { by rewrite (get_pseudo_cached cls el self st r). }
  destruct (query_element cls st (f_pk self) el) as [|r [|r' l]] eqn:Hq.
  - by rewrite get_pseudo_not_found.
  - rewrite (get_pseudo_found cls el self st r) by done. simpl.
    destruct (cache_consistent_cached self st Hcons) as [Hval Hkey].
    assert (r ∈ query_element cls st (f_pk self) el) as Hr
      by (rewrite Hq; apply list_elem_of_here).
    apply list_elem_of_filter in Hr as [[_ Hel] Hin].
    intros d [= <-]. simpl. split.
    + intros k n Hk. destruct (decide (k = Some el)) as [->|Hne].
      * rewrite lookup_insert_eq in Hk. by injection Hk as <-.
      * rewrite lookup_insert_ne in Hk by done. by apply Hval.
    + intros n Hn. destruct (decide (element n = Some el)) as [->|Hne].
      * rewrite lookup_insert_eq. eauto.
      * rewrite lookup_insert_ne by done. by apply Hkey.
  - rewrite get_pseudo_multiple; [done..|]. rewrite Hq. simpl. lia.
Qed.

(** X11.  A lookup writes nothing in the database, keeps a cache that agrees
    with the group in agreement, and, done a second time, returns what it
    returned and changes nothing more. *)
Theorem get_pseudo_idempotent
    (cls : family_class) (el : string) (self : family) (st : store) :
  (get_pseudo cls el (self, st)).2.2 = st
  ∧ get_pseudo cls el (get_pseudo cls el (self, st)).2
    = get_pseudo cls el (self, st)
  ∧ (cache_consistent self st →
     cache_consistent (get_pseudo cls el (self, st)).2.1 st).
Proof.
  split; [|split; [|apply get_pseudo_keeps_cache_consistent]].
  { by destruct (get_pseudo_snd cls el self st) as (self' & -> & _). }
  destruct (cached st self !! Some el) as [r|] eqn:Hc.
  { rewrite (get_pseudo_cached cls el self st r) by done. simpl.
    by rewrite (get_pseudo_cached cls el (populated st self) st r). }
  destruct (query_element cls st (f_pk self) el) as [|r [|r' l]] eqn:Hq.
  - rewrite get_pseudo_not_found by done. simpl.
    by rewrite (get_pseudo_not_found cls el (populated st self) st).
  - rewrite (get_pseudo_found cls el self st r) by done. simpl.
    rewrite (get_pseudo_cached cls el _ st r); [done|].
    simpl. apply lookup_insert_eq.
  - assert (1 < length (query_element cls st (f_pk self) el))%nat as Hlen
      by (rewrite Hq; simpl; lia).
    rewrite get_pseudo_multiple by done. simpl.
    by rewrite (get_pseudo_multiple cls el (populated st self) st).
Qed.

Lemma get_pseudo_idempotent_witness :
  cache_consistent
    (get_pseudo PseudoPotentialFamily "H" (family_B, store_with_A_B)).2.1
    store_with_A_B.
Proof.
  apply (get_pseudo_idempotent PseudoPotentialFamily "H" family_B
           store_with_A_B).
  exact family_B_cache_consistent.
Defined.

(** X12.  [add_nodes] keeps a cache that agrees with the group in agreement,
    whatever it returns, when it is given stored nodes that are those of
    the database. *)
Theorem add_nodes_cache_consistent
    (cls : family_class) (nodes : nodes_arg) (self : family) (st : store) :
  family_of_store self st →
  Forall (λ n, is_Some (pk n)) (as_list nodes) →
  Forall (node_of_store st) (as_list nodes) →
  cache_consistent self st →
  cache_consistent (add_nodes cls nodes (self, st)).2.1
    (add_nodes cls nodes (self, st)).2.2.
Proof.
  intros Hrow Hstored Hcoh Hc.
  pose proof (populated_cache_consistent self st Hc) as Hpop.
  destruct (f_pk self) as [g|] eqn:Hpk; [|by rewrite add_nodes_unstored].
  destruct (decide (Forall (λ n, ptype n = _pseudo_type cls) (as_list nodes)))
    as [Hty|Hty].
  2:{ apply not_Forall_Exists in Hty; [|apply _].
      apply Exists_exists in Hty as (n & Hin & Hn).
      by rewrite (add_nodes_wrong_type cls nodes self st g n). }
  destruct (first_present (cached st self) (as_list nodes))
    as [Hfresh|(before & n & after & Hsplit & Hbefore & Hn)].
  2:{ by rewrite (add_nodes_element_present cls nodes self st g before n
                    after). }
  destruct (cache_consistent_cached self st Hc) as [Hval Hkey].
  rewrite Hpk in Hval, Hkey.
  destruct (Hrow g Hpk) as [row Hg].
  assert (∀ m, m ∈ group_nodes (group_add_nodes g (as_list nodes) st).2
                     (Some g)
               ↔ m ∈ group_nodes st (Some g) ∨ m ∈ as_list nodes) as Hmem.
  { intros m.
    by destruct (group_nodes_after_add g (as_list nodes) st row m Hg Hstored
                   Hcoh) as (_ & _ & ?). }
  rewrite (add_nodes_accepted cls nodes self st g) by done.
  destruct (group_add_nodes g (as_list nodes) st) as [r st']. simpl in *.
  intros d [= <-]. change (f_pk (set_cache self _)) with (f_pk self).
  rewrite Hpk. split.
  - intros k n Hk. rewrite Hmem.
    apply lookup_union_Some_raw in Hk as [Hk|[_ Hk]].
    + apply dict_by_element_lookup in Hk as [? ?]. auto.
    + destruct (Hval _ _ Hk). auto.
  - intros n Hn. apply Hmem in Hn as [Hn|Hn].
    + destruct (Hkey n Hn) as [p Hp].
      destruct (dict_by_element (as_list nodes) !! element n) as [q|] eqn:Hq.
      * exists q. apply lookup_union_Some_raw. by left.
      * exists p. apply lookup_union_Some_raw. by right.
    + assert (is_Some (dict_by_element (as_list nodes) !! element n))
        as [q Hq] by (apply dict_by_element_is_Some, list_elem_of_fmap; eauto).
      exists q. apply lookup_union_Some_raw. by left.
Qed.

Lemma family_SSSP_cache_consistent : cache_consistent family_SSSP store_two_H.
Proof. by intros d. Qed.

Lemma add_nodes_cache_consistent_witness :
  cache_consistent
    (add_nodes PseudoPotentialFamily (NodeList [hydrogen_a; hydrogen_b])
       (family_SSSP, store_two_H)).2.1
    (add_nodes PseudoPotentialFamily (NodeList [hydrogen_a; hydrogen_b])
       (family_SSSP, store_two_H)).2.2.
Proof.
  apply (add_nodes_cache_consistent PseudoPotentialFamily
           (NodeList [hydrogen_a; hydrogen_b]) family_SSSP store_two_H).
  - intros g [= <-]. vm_compute. eauto.
  - repeat constructor; vm_compute; eauto.
  - repeat constructor; intros k [= <-]; vm_compute; reflexivity.
  - exact family_SSSP_cache_consistent.
Defined.

(** ** The elements property *)

(** X13.  [elements] lists no element twice, writes nothing in the database,
    and, with a cache that agrees with the group, lists exactly the
    elements of the nodes of the group. *)
Theorem elements_of_members (self : family) (st : store) :
  ∃ els self',
    elements (self, st) = (Ok els, (self', st))
    ∧ NoDup els
    ∧ (cache_consistent self st →
       ∀ e, e ∈ els ↔ ∃ n, n ∈ group_nodes st (f_pk self) ∧ element n = e).
Proof.
  rewrite elements_spec. eexists _, _. split; [done|].
  split; [apply NoDup_fst_map_to_list|].
  intros Hc e. destruct (cache_consistent_cached self st Hc) as [Hval Hkey].
  rewrite elem_of_keys. split.
  - intros [n Hn]. exists n. by apply Hval.
  - intros (n & Hn & <-). by apply Hkey.
Qed.

Lemma elements_of_members_witness :
  ∃ els self',
    elements (family_B, store_with_A_B) = (Ok els, (self', store_with_A_B))
    ∧ (Some "H" ∈ els).
Proof.
  destruct (elements_of_members family_B store_with_A_B)
    as (els & self' & Hels & _ & Hmem).
  exists els, self'. split; [exact Hels|].
  apply (Hmem family_B_cache_consistent).
  exists (mkPseudo (Some 0) PseudoPotentialData (Some "H") "a").
  split; [vm_compute; apply list_elem_of_here|reflexivity].
Defined.

(** ** The dictionary get_pseudos returns *)

Lemma mapping_of_Ok lookup items acc m :
  mapping_of lookup items acc = Ok m →
  dom m = list_to_set items ∪ dom acc
  ∧ (∀ el, el ∈ items → ∃ r, m !! el = Some r ∧ lookup el = Ok r)
  ∧ (∀ el, el ∉ items → m !! el = acc !! el).
Proof.
  revert acc. induction items as [|el items IH]; intros acc; simpl.
  - intros [= <-]. split; [|split].
    + by rewrite (left_id_L ∅ (∪)).
    + intros el Hel. by apply elem_of_nil in Hel.
    + done.
  - destruct (lookup el) as [r|] eqn:Hr; [|done].
    intros (Hdom & Hin & Hout)%IH. split; [|split].
    + rewrite Hdom, dom_insert_L, (assoc_L (∪)).
      by rewrite (comm_L (∪) (list_to_set items) {[el]}).
    + intros el' Hel'. destruct (decide (el' ∈ items)) as [?|Hnot]; [auto|].
      apply elem_of_cons in Hel' as [->|?]; [|done].
      exists r. split; [|done]. rewrite (Hout el Hnot). apply lookup_insert_eq.
    + intros el' Hel'. apply not_elem_of_cons in Hel' as [Hne Hnot].
      rewrite (Hout el' Hnot). by rewrite lookup_insert_ne.
Qed.

Lemma get_each_snd cls items acc self st :
  (get_each cls items acc (self, st)).2.2 = st
  ∧ (cache_consistent self st →
     cache_consistent (get_each cls items acc (self, st)).2.1 st).
Proof.
  revert acc self. induction items as [|el items IH]; intros acc self;
    [done|].
  simpl. unfold bind.
  pose proof (get_pseudo_keeps_cache_consistent cls el self st) as Hcons.
  destruct (get_pseudo_snd cls el self st) as (self' & Hsnd & _).
  destruct (get_pseudo cls el (self, st)) as [[r|e] s'];
    simpl in Hsnd, Hcons; subst s'; [|done].
  destruct (IH (<[el:=r]> acc) self') as [Hst Hc]. auto.
Qed.

(** X14.  When [get_pseudos] returns a dictionary, its keys are the elements
    asked for, each once, and the node under an element is the one
    [get_pseudo] returns for that element on the state the call started
    from. *)
Theorem get_pseudos_keys_and_values
    (cls : family_class) (elements structure : pyarg) (self : family)
    (st : store) (m : gmap string pseudo) :
  (get_pseudos cls elements structure (self, st)).1 = Ok m →
  ∃ iterable items,
    requested_elements elements structure = Ok iterable
    ∧ py_iter iterable = Ok items
    ∧ dom m = list_to_set items
    ∧ ∀ el, el ∈ items →
            ∃ r, m !! el = Some r
                 ∧ (get_pseudo cls el (self, st)).1 = Ok r.
Proof.
  unfold get_pseudos.
  destruct (requested_elements elements structure) as [iterable|] eqn:Hreq;
    [|done].
  destruct (py_iter iterable) as [items|] eqn:Hiter; [|done].
  rewrite (get_each_fst cls items ∅ self st self) by done.
  intros (Hdom & Hin & _)%mapping_of_Ok.
  exists iterable, items. split; [done|]. split; [done|]. split; [|done].
  by rewrite Hdom, dom_empty_L, (right_id_L ∅ (∪)).
Qed.

Lemma get_pseudos_keys_and_values_witness :
  ∃ iterable items,
    requested_elements PyNone (PyStructure (mkStructure [mkKind "H"]))
      = Ok iterable
    ∧ py_iter iterable = Ok items
    ∧ dom ({[ "H" := mkPseudo (Some 0) PseudoPotentialData (Some "H") "a" ]}
             : gmap string pseudo) = list_to_set items
    ∧ ∀ el, el ∈ items →
            ∃ r, ({[ "H" := mkPseudo (Some 0) PseudoPotentialData (Some "H")
                               "a" ]} : gmap string pseudo) !! el = Some r
                 ∧ (get_pseudo PseudoPotentialFamily el
                      (family_B, store_with_A_B)).1 = Ok r.
Proof.
  apply (get_pseudos_keys_and_values PseudoPotentialFamily PyNone
           (PyStructure (mkStructure [mkKind "H"])) family_B store_with_A_B).
  vm_compute. reflexivity.
Defined.

(** X15.  [get_pseudos] writes nothing in the database, whatever it returns,
    and keeps a cache that agrees with the group in agreement. *)
Theorem get_pseudos_frame
    (cls : family_class) (elements structure : pyarg) (self : family)
    (st : store) :
  (get_pseudos cls elements structure (self, st)).2.2 = st
  ∧ (cache_consistent self st →
     cache_consistent (get_pseudos cls elements structure (self, st)).2.1 st).
Proof.
  unfold get_pseudos.
  destruct (requested_elements elements structure) as [iterable|]; [|done].
  destruct (py_iter iterable) as [items|]; [|done].
  apply get_each_snd.
Qed.

Lemma get_pseudos_frame_witness :
  cache_consistent
    (get_pseudos PseudoPotentialFamily (PyList ["H"; "Li"]) PyNone
       (family_B, store_with_A_B)).2.1 store_with_A_B.
Proof.
  apply (get_pseudos_frame PseudoPotentialFamily (PyList ["H"; "Li"]) PyNone
           family_B store_with_A_B).
  exact family_B_cache_consistent.
Defined.

(** ** What create_from_folder writes *)

Lemma objects_get_NotExistent st label m :
  objects_get st label = Raise (NotExistent m) →
  label ∉ g_label <$> db_groups st.
Proof.
  unfold objects_get. intros Hget Hin.
  apply list_elem_of_fmap in Hin as (row & -> & Hrow).
  apply list_elem_of_lookup in Hrow as [i Hi].
  assert ((i, row) ∈ filter (λ ig : nat * group_row, g_label ig.2 = g_label row)
                       (imap pair (db_groups st))) as Hmatch.
  { apply list_elem_of_filter. split; [done|].
    apply elem_of_lookup_imap. eauto. }
  destruct (filter _ (imap pair (db_groups st))) as [|a [|b l]]; try done.
  by apply elem_of_nil in Hmatch.
Qed.

Lemma filter_none {A} (P : A → Prop) `{!∀ x, Decision (P x)} (l : list A) :
  Forall (λ x, ¬ P x) l → filter P l = [].
Proof.
  induction 1 as [|x l Hx _ IH]; [done|].
  by rewrite filter_cons, decide_False.
Qed.

(** The groups of the database after [create_from_folder] has returned a
    family: those there were, and one more. *)
Lemma create_from_folder_groups cls fs dirpath label description deduplicate
    st fam st' :
  create_from_folder cls fs dirpath label description deduplicate st
    = (Ok fam, st') →
  ∃ members,
    db_groups st' =
      (db_groups st ++ [mkGroup label description members])%list.
Proof.
  unfold create_from_folder. intros Hcreate.
  destruct (objects_get st label) as [?|[]]; try done.
  destruct (parse_pseudos_from_directory cls fs dirpath) as [parsed|];
    [|done].
  unfold family_store in Hcreate. simpl in Hcreate.
  set (fp := family_pseudo cls deduplicate st <$> parsed) in *.
  set (st1 := mkStore _ _) in *. set (fam1 := mkFamily _ _ _ _) in *.
  destruct (store_all_spec fp st1) as (Hgroups & _ & _).
  destruct (store_all fp st1) as [stored st2]. simpl in Hgroups.
  destruct (add_nodes cls (NodeList stored) (fam1, st2))
    as [[[]|e] [fam3 st3]] eqn:Hadd; [|done].
  injection Hcreate as <- <-.
  destruct (add_nodes_Ok_state cls (NodeList stored) fam1 st2)
    as (g & [= <-] & Hstate); [by rewrite Hadd|].
  rewrite Hadd in Hstate. injection Hstate as _ ->.
  unfold group_add_nodes. simpl.
  destruct (mapM pk stored) as [keys|]; simpl; rewrite Hgroups; subst st1;
    simpl; [|eauto].
  rewrite alter_app_r_alt by done. rewrite Nat.sub_diag. simpl. eauto.
Qed.

(** X16.  When the directory does not parse, [create_from_folder] raises what
    the parser raised and the database is left as it was: nothing is
    stored before the parsing is over. *)
Theorem create_from_folder_parse_fails
    (cls : family_class) (fs : gmap string fsobj) (dirpath label : string)
    (description : option string) (deduplicate : bool) (st : store)
    (e : exn) :
  label ∉ g_label <$> db_groups st →
  parse_pseudos_from_directory cls fs dirpath = Raise e →
  create_from_folder cls fs dirpath label description deduplicate st
    = (Raise e, st).
Proof.
  intros Hfresh Hparse. unfold create_from_folder.
  by rewrite (objects_get_fresh _ _ Hfresh), Hparse.
Qed.

Lemma create_from_folder_parse_fails_witness :
  create_from_folder PseudoPotentialFamily dir_two_H "/pseudos" "new" None
    true store_with_A
  = (Raise (ValueError
       "directory `/pseudos` contains pseudo potentials with duplicate elements"),
     store_with_A).
Proof.
  apply (create_from_folder_parse_fails PseudoPotentialFamily dir_two_H
           "/pseudos" "new" None true store_with_A).
  - vm_compute. intros H. apply list_elem_of_singleton in H. discriminate.
  - vm_compute. reflexivity.
Defined.

(** X17.  When the label is free, the description is a string and the
    directory parses, [create_from_folder] returns a stored family with
    that label and description; the database
    has the groups and the nodes it had, unchanged, one more group, that
    of the family, and after the old nodes one row for each parsed record
    that was not replaced by a stored node; the cache of the family agrees
    with its group. *)
Theorem create_from_folder_store
    (cls : family_class) (fs : gmap string fsobj) (dirpath name descr : string)
    (deduplicate : bool) (st : store) (parsed : list pseudo) :
  name ∉ g_label <$> db_groups st →
  parse_pseudos_from_directory cls fs dirpath = Ok parsed →
  ∃ fam st' members,
    create_from_folder cls fs dirpath name (Some descr) deduplicate st
      = (Ok fam, st')
    ∧ f_pk fam = Some (length (db_groups st))
    ∧ label fam = name ∧ description fam = Some descr
    ∧ db_groups st' =
        (db_groups st ++ [mkGroup name (Some descr) members])%list
    ∧ db_nodes st' =
        (db_nodes st ++
           (row_of_node <$>
              filter (λ p, family_pseudo cls deduplicate st p = p) parsed))%list
    ∧ cache_consistent fam st'
    ∧ family_of_store fam st'.
Proof.
  intros Hfresh Hparse.
  destruct (parse_pseudos_from_directory_Ok cls _ _ _ Hparse)
    as (Hparsed & _ & _).
  destruct (create_from_folder_fresh cls fs dirpath name (Some descr)
              deduplicate st parsed Hfresh Hparse)
    as (stored & st' & Hcreate & Hall & Hnodes & Hstored & Hmembers).
  destruct (create_from_folder_groups cls _ _ _ _ _ _ _ _ Hcreate)
    as [members Hgroups].
  eexists _, st', members. split; [exact Hcreate|].
  do 4 (split; [done|]). split; [|split].
  - rewrite Hnodes. do 2 f_equal. clear -Hparsed.
    induction Hparsed as [|p parsed Hp _ IH]; [done|].
    rewrite fmap_cons, !filter_cons, IH. destruct Hp as (Hpk & _).
    destruct (family_pseudo_cases cls deduplicate st p)
      as [[Heq _]|(_ & _ & Hin & _)].
    + rewrite Heq. by rewrite !decide_True.
    + apply elem_of_all_nodes in Hin as (k & Hk & _).
      rewrite decide_False by (by rewrite Hk).
      rewrite decide_False; [done|]. intros Heq. rewrite Heq in Hk. congruence.
  - intros d [= <-]. simpl. split.
    + intros k n Hk. apply dict_by_element_lookup in Hk as [Hin Hel].
      split; [by apply Hmembers|done].
    + intros n Hn. apply Hmembers in Hn.
      apply dict_by_element_is_Some, list_elem_of_fmap. eauto.
  - intros g [= <-]. rewrite Hgroups. simpl.
    rewrite list_lookup_middle by done. eauto.
Qed.

Lemma create_from_folder_store_witness :
  ∃ fam st' members,
    create_from_folder PseudoPotentialFamily dir_H_He "/pseudos" "new"
      (Some "") true store_one_H = (Ok fam, st')
    ∧ f_pk fam = Some 0
    ∧ label fam = "new" ∧ description fam = Some ""
    ∧ db_groups st' = [mkGroup "new" (Some "") members]
    ∧ db_nodes st' =
        [mkRow PseudoPotentialData (Some "H") "a";
         mkRow PseudoPotentialData (Some "He") "b"]
    ∧ cache_consistent fam st'
    ∧ family_of_store fam st'.
Proof.
  apply (create_from_folder_store PseudoPotentialFamily dir_H_He "/pseudos"
           "new" "" true store_one_H
           [mkPseudo None PseudoPotentialData (Some "H") "a";
            mkPseudo None PseudoPotentialData (Some "He") "b"]).
  - vm_compute. apply not_elem_of_nil.
  - vm_compute. reflexivity.
Defined.

(** X18.  The nodes of the group of the family [create_from_folder] returns are,
    for each parsed record, what [store()] made of the node the family
    took for it: the stored node that replaced it, or a new node with its
    class, element and checksum.  Every node of the group comes from a
    parsed record in this way, and every parsed record has its node in the
    group. *)
Theorem create_from_folder_group_nodes
    (cls : family_class) (fs : gmap string fsobj) (dirpath name : string)
    (descr : option string) (deduplicate : bool) (st : store)
    (parsed : list pseudo) :
  name ∉ g_label <$> db_groups st →
  parse_pseudos_from_directory cls fs dirpath = Ok parsed →
  ∃ fam st',
    create_from_folder cls fs dirpath name descr deduplicate st
      = (Ok fam, st')
    ∧ (∀ m, m ∈ group_nodes st' (f_pk fam) →
            ∃ p, p ∈ parsed
                 ∧ stored_as (length (db_nodes st)) st'
                     (family_pseudo cls deduplicate st p) m)
    ∧ (∀ p, p ∈ parsed →
            ∃ m, m ∈ group_nodes st' (f_pk fam)
                 ∧ stored_as (length (db_nodes st)) st'
                     (family_pseudo cls deduplicate st p) m).
Proof.
  intros Hfresh Hparse.
  destruct (create_from_folder_fresh cls fs dirpath name descr deduplicate st
              parsed Hfresh Hparse)
    as (stored & st' & Hcreate & Hall & _ & _ & Hmembers).
  eexists _, st'. split; [exact Hcreate|]. simpl. split.
  - intros m Hm%Hmembers. apply list_elem_of_lookup in Hm as [i Hi].
    destruct (Forall2_lookup_r _ _ _ _ _ Hall Hi) as (x & Hx & Has).
    apply list_elem_of_lookup_2, list_elem_of_fmap in Hx as (p & -> & Hp).
    eauto.
  - intros p Hp.
    assert (family_pseudo cls deduplicate st p
            ∈ family_pseudo cls deduplicate st <$> parsed) as Hfp
      by (apply list_elem_of_fmap; eauto).
    apply list_elem_of_lookup in Hfp as [i Hi].
    destruct (Forall2_lookup_l _ _ _ _ _ Hall Hi) as (q & Hq & Has).
    exists q. split; [|done]. apply Hmembers. by eapply list_elem_of_lookup_2.
Qed.

Lemma create_from_folder_group_nodes_witness :
  ∃ fam st',
    create_from_folder PseudoPotentialFamily dir_H_He "/pseudos" "new"
      (Some "") false store_one_H = (Ok fam, st')
    ∧ ∃ m, m ∈ group_nodes st' (f_pk fam)
           ∧ stored_as (length (db_nodes store_one_H)) st'
               (family_pseudo PseudoPotentialFamily false store_one_H
                  (mkPseudo None PseudoPotentialData (Some "H") "a")) m.
Proof.
  destruct (create_from_folder_group_nodes PseudoPotentialFamily dir_H_He
              "/pseudos" "new" (Some "") false store_one_H
              [mkPseudo None PseudoPotentialData (Some "H") "a";
               mkPseudo None PseudoPotentialData (Some "He") "b"])
    as (fam & st' & Hcreate & _ & Hhas).
  - vm_compute. apply not_elem_of_nil.
  - vm_compute. reflexivity.
  - exists fam, st'. split; [exact Hcreate|].
    apply (Hhas (mkPseudo None PseudoPotentialData (Some "H") "a")).
    apply list_elem_of_here.
Defined.

(** X19.  A label serves once: after [create_from_folder] has returned a family
    in a database with unique labels, the labels are still unique, and
    another call with the same label raises [ValueError] and writes
    nothing, whatever directory it is given. *)
Theorem create_from_folder_label_once
    (cls : family_class) (fs fs' : gmap string fsobj)
    (dirpath dirpath' name : string) (descr descr' : option string)
    (deduplicate deduplicate' : bool) (st st' : store) (fam : family) :
  NoDup (g_label <$> db_groups st) →
  create_from_folder cls fs dirpath name descr deduplicate st = (Ok fam, st') →
  NoDup (g_label <$> db_groups st')
  ∧ create_from_folder cls fs' dirpath' name descr' deduplicate' st' =
      (Raise (ValueError ("the " ++ cls_name cls ++ " `" ++ name
                ++ "` already exists")), st').
Proof.
  intros Hnd Hcreate.
  destruct (create_from_folder_groups cls _ _ _ _ _ _ _ _ Hcreate)
    as [members Hgroups].
  assert (name ∉ g_label <$> db_groups st) as Hfresh.
  { unfold create_from_folder in Hcreate.
    destruct (objects_get st name) as [?|[]] eqn:Hget; try done.
    by eapply objects_get_NotExistent. }
  assert (NoDup (g_label <$> db_groups st')) as Hnd'.
  { rewrite Hgroups, fmap_app. apply NoDup_app. split; [done|]. split.
    - intros l Hl Hl'. simpl in Hl'. apply list_elem_of_singleton in Hl'.
      by subst l.
    - apply NoDup_singleton. }
  split; [done|]. unfold create_from_folder.
  destruct (objects_get_present st' name Hnd') as [g ->]; [|done].
  rewrite Hgroups, fmap_app. apply elem_of_app. right.
  apply list_elem_of_here.
Qed.

Lemma create_from_folder_label_once_witness :
  NoDup (g_label <$> db_groups store_with_A)
  ∧ create_from_folder PseudoPotentialFamily dir_H_He "/pseudos" "A" None false
      store_with_A
    = (Raise (ValueError "the PseudoPotentialFamily `A` already exists"),
       store_with_A).
Proof.
  apply (create_from_folder_label_once PseudoPotentialFamily two_dirs dir_H_He
           "/first" "/pseudos" "A" (Some "") None true false empty_store
           store_with_A
           (mkFamily (Some 0) "A" (Some "")
              (Some {[ Some "H" :=
                         mkPseudo (Some 0) PseudoPotentialData (Some "H")
                           "a" ]}))).
  - vm_compute. apply NoDup_nil_2.
  - vm_compute. reflexivity.
Defined.

(** X20.  With deduplication, a directory is stored once: after
    [create_from_folder] has returned a family for a directory, a call
    with deduplication for the same directory and another, free label
    returns a family too, and adds no node to the database. *)
Theorem create_from_folder_again_stores_nothing
    (cls : family_class) (fs : gmap string fsobj) (dirpath name name' : string)
    (descr descr' : option string) (deduplicate : bool) (st st' : store)
    (fam : family) :
  create_from_folder cls fs dirpath name descr deduplicate st = (Ok fam, st') →
  name' ∉ g_label <$> db_groups st' →
  ∃ fam' st'',
    create_from_folder cls fs dirpath name' descr' true st' = (Ok fam', st'')
    ∧ db_nodes st'' = db_nodes st'.
Proof.
  intros Hcreate Hfresh'.
  assert (name ∉ g_label <$> db_groups st) as Hfresh.
  { unfold create_from_folder in Hcreate.
    destruct (objects_get st name) as [?|[]] eqn:Hget; try done.
    by eapply objects_get_NotExistent. }
  assert (∃ parsed, parse_pseudos_from_directory cls fs dirpath = Ok parsed)
    as [parsed Hparse].
  { unfold create_from_folder in Hcreate.
    rewrite (objects_get_fresh _ _ Hfresh) in Hcreate.
    destruct (parse_pseudos_from_directory cls fs dirpath); [eauto|done]. }
  destruct (parse_pseudos_from_directory_Ok cls _ _ _ Hparse)
    as (Hparsed & _ & _).
  destruct (create_from_folder_fresh cls fs dirpath name descr deduplicate st
              parsed Hfresh Hparse)
    as (stored & st1 & Hcreate1 & Hall & _ & Hstored & _).
  rewrite Hcreate in Hcreate1. injection Hcreate1 as _ <-.
  destruct (create_from_folder_fresh cls fs dirpath name' descr' true st'
              parsed Hfresh' Hparse)
    as (stored' & st'' & Hcreate' & _ & Hnodes & _ & _).
  eexists _, st''. split; [exact Hcreate'|].
  rewrite Hnodes, filter_none; [by rewrite app_nil_r|].
  rewrite Forall_fmap, Forall_forall. intros p Hp.
  change (pk (family_pseudo cls true st' p) ≠ None).
  assert (∃ q, q ∈ query_md5 cls st' (md5 p)) as [q Hq].
  { assert (family_pseudo cls deduplicate st p
            ∈ family_pseudo cls deduplicate st <$> parsed) as Hfp
      by (apply list_elem_of_fmap; eauto).
    apply list_elem_of_lookup in Hfp as [i Hi].
    destruct (Forall2_lookup_l _ _ _ _ _ Hall Hi) as (q & Hq & Has).
    rewrite Forall_forall in Hstored, Hparsed.
    destruct (Hstored q (list_elem_of_lookup_2 _ _ _ Hq)) as [Hty Hcoh].
    destruct (family_pseudo_accepted cls deduplicate st p (Hparsed p Hp))
      as [_ Hpk].
    assert (pk (family_pseudo cls deduplicate st p) = None
            ∨ is_Some (pk (family_pseudo cls deduplicate st p))
              ∧ node_of_store st' (family_pseudo cls deduplicate st p))
      as Hpk'.
    { destruct Hpk as [?|[? _]]; [by left|right]. split; [done|].
      unfold stored_as in Has.
      destruct (pk (family_pseudo cls deduplicate st p)) eqn:Hk;
        [by subst q|by destruct H]. }
    destruct (stored_as_facts _ _ _ _ Has Hpk') as (_ & _ & Hsum & [k Hk] & _).
    exists q. apply list_elem_of_filter. split.
    - split; [done|]. rewrite Hsum.
      by destruct (family_pseudo_cases cls deduplicate st p)
        as [[-> _]|(_ & _ & _ & _ & ?)].
    - apply elem_of_all_nodes. exists k. auto. }
  destruct (family_pseudo_cases cls true st' p)
    as [[_ Hnone]|(_ & _ & Hin & _)].
  - rewrite Hnone in Hq by done. by apply elem_of_nil in Hq.
  - apply elem_of_all_nodes in Hin as (k & Hk & _). by rewrite Hk.
Qed.

Lemma create_from_folder_again_stores_nothing_witness :
  ∃ fam' st'',
    create_from_folder PseudoPotentialFamily two_dirs "/first" "again" None
      true store_with_A = (Ok fam', st'')
    ∧ db_nodes st'' = db_nodes store_with_A.
Proof.
  apply (create_from_folder_again_stores_nothing PseudoPotentialFamily
           two_dirs "/first" "A" "again" (Some "") None true empty_store
           store_with_A
           (mkFamily (Some 0) "A" (Some "")
              (Some {[ Some "H" :=
                         mkPseudo (Some 0) PseudoPotentialData (Some "H")
                           "a" ]}))).
  - vm_compute. reflexivity.
  - vm_compute. intros H. apply list_elem_of_singleton in H. discriminate.
Defined.
